(** * node-gtoken: the service-account token agent of [src/index.ts]

    A shallow embedding of the [GoogleToken] class.  JavaScript numbers that
    the class handles are integral epoch times and durations and are modelled
    as [Z]; an optional property is an [option], with [None] for [undefined].
    Asynchronous methods are programs over two families of operations: the
    synchronous ones (reading the clock, reading and writing [this], calling
    a library function) and the awaited ones (file reads, HTTP requests).
    The programs are interpreted twice: [run] executes one call to completion
    against a description of the outside world; [exec] interleaves several
    calls of [getToken] that suspend at their awaits, as the single-threaded
    event loop does, and holds the private property [inFlightRequest] that
    coordinates them. *)

From stdpp Require Import base numbers option list strings gmap.

Local Open Scope string_scope.
Local Open Scope Z_scope.
Local Open Scope list_scope.

(** ** JavaScript values *)

(** Values of additional claims and of the assertion payload. *)
#[warnings="-register-all"]
Inductive jsval : Type :=
| JUndefined
| JNull
| JBool (b : bool)
| JNum (z : Z)
| JStr (s : string)
| JArr (l : list jsval)
| JObj (fields : list (string * jsval)).

(** A property typed [T | null | undefined] whose two empty cases the code
    tells apart by strict equality. *)
Inductive nullable (A : Type) : Type :=
| Undefined
| Null
| Val (a : A).
Arguments Undefined {A}.
Arguments Null {A}.
Arguments Val {A} a.

(** [ToBoolean]: what [if (x)], [!x], [x && y] and [x || y] test. *)
Class Truthy (A : Type) := truthy : A → bool.

#[export] Instance string_truthy : Truthy string :=
  λ s, negb (String.eqb s "").
#[export] Instance number_truthy : Truthy Z :=
  λ z, negb (z =? 0).
#[export] Instance option_truthy {A} `{Truthy A} : Truthy (option A) :=
  λ o, match o with Some a => truthy a | None => false end.

(** [a || b] on optional values of one type. *)
Definition js_or {A} `{Truthy A} (a b : option A) : option A :=
  if truthy a then a else b.

(** [a ?? b]. *)
Definition js_nullish {A} (a : option A) (b : A) : A :=
  match a with Some x => x | None => b end.

(** The string that a property holds, once the property is known to be
    truthy. *)
Definition the_string (o : option string) : string := default "" o.

Definition str_or_undefined (o : option string) : jsval :=
  match o with Some s => JStr s | None => JUndefined end.

(** ** Interfaces of the module *)

Record Credentials := {
  privateKey : string;
  clientEmail : option string;
}.

Record TokenData := {
  refresh_token : option string;
  expires_in : nullable Z;
  access_token : option string;
  token_type : option string;
  id_token : option string;
}.

(** Any object is truthy, whatever its properties hold. *)
#[export] Instance TokenData_truthy : Truthy TokenData := λ _, true.

(** [scope?: string | string[]]. *)
Inductive ScopeOption :=
| ScopeString (s : string)
| ScopeArray (l : list string).

Module TokenOptions.
Record t := {
  keyFile : option string;
  key : option string;
  email : option string;
  iss : option string;
  sub : option string;
  scope : option ScopeOption;
  additionalClaims : option (gmap string jsval);
  eagerRefreshThresholdMillis : option Z;
}.
(** [{}], the default argument of [configure]. *)
Definition empty : t :=
  {| keyFile := None; key := None; email := None; iss := None; sub := None;
     scope := None; additionalClaims := None;
     eagerRefreshThresholdMillis := None |}.
End TokenOptions.

(** [GetTokenOptions] as [getTokenAsync] receives it: the property is
    present, and holds [undefined] ([None]) or a boolean. *)
Record GetTokenOptions := {
  forceRefresh : option bool;
}.

#[export] Instance bool_truthy : Truthy bool := λ b, b.

(** The body of an error response, as the [catch] of [requestToken] reads
    it. *)
Record ErrorBody := {
  error : option string;
  error_description : option string;
}.
#[export] Instance ErrorBody_truthy : Truthy ErrorBody := λ _, true.

(** [e.response] of a [GaxiosError]. *)
Record ErrorResponse := {
  response_data : option ErrorBody;
}.
#[export] Instance ErrorResponse_truthy : Truthy ErrorResponse := λ _, true.

(** A thrown value: [Error], [ErrorWithCode] (which adds [code]),
    [GaxiosError] (which adds [response]) or an error of the runtime. *)
Record Error := {
  message : string;
  code : option string;
  response : option ErrorResponse;
}.

Definition new_Error (msg : string) : Error :=
  {| message := msg; code := None; response := None |}.
Definition new_ErrorWithCode (msg c : string) : Error :=
  {| message := msg; code := Some c; response := None |}.
(** Reading a property of [null] or [undefined]. *)
Definition TypeError : Error :=
  new_Error "Cannot read properties of undefined".
Definition set_message (e : Error) (msg : string) : Error :=
  {| message := msg; code := code e; response := response e |}.

Inductive Result (A : Type) : Type :=
| Ok (a : A)
| Err (e : Error).
Arguments Ok {A} a.
Arguments Err {A} e.

(** ** The agent *)

(** The properties of an instance that its methods read and write.  The
    private [inFlightRequest], which [getTokenAsync] alone reads and writes,
    is kept with the state of the event loop, [Loop] below. *)
Record GoogleToken := {
  expiresAt : option Z;
  key : option string;
  keyFile : option string;
  iss : option string;
  sub : option string;
  scope : option string;
  rawToken : option TokenData;
  tokenExpires : option Z;
  email : option string;
  additionalClaims : option (gmap string jsval);
  eagerRefreshThresholdMillis : option Z;
}.

Definition set_expiresAt (v : option Z) (g : GoogleToken) : GoogleToken :=
  {| expiresAt := v; key := key g; keyFile := keyFile g; iss := iss g;
     sub := sub g; scope := scope g; rawToken := rawToken g;
     tokenExpires := tokenExpires g; email := email g;
     additionalClaims := additionalClaims g;
     eagerRefreshThresholdMillis := eagerRefreshThresholdMillis g |}.
Definition set_key (v : option string) (g : GoogleToken) : GoogleToken :=
  {| expiresAt := expiresAt g; key := v; keyFile := keyFile g; iss := iss g;
     sub := sub g; scope := scope g; rawToken := rawToken g;
     tokenExpires := tokenExpires g; email := email g;
     additionalClaims := additionalClaims g;
     eagerRefreshThresholdMillis := eagerRefreshThresholdMillis g |}.
Definition set_iss (v : option string) (g : GoogleToken) : GoogleToken :=
  {| expiresAt := expiresAt g; key := key g; keyFile := keyFile g; iss := v;
     sub := sub g; scope := scope g; rawToken := rawToken g;
     tokenExpires := tokenExpires g; email := email g;
     additionalClaims := additionalClaims g;
     eagerRefreshThresholdMillis := eagerRefreshThresholdMillis g |}.
Definition set_rawToken (v : option TokenData) (g : GoogleToken)
  : GoogleToken :=
  {| expiresAt := expiresAt g; key := key g; keyFile := keyFile g;
     iss := iss g; sub := sub g; scope := scope g; rawToken := v;
     tokenExpires := tokenExpires g; email := email g;
     additionalClaims := additionalClaims g;
     eagerRefreshThresholdMillis := eagerRefreshThresholdMillis g |}.
Definition set_tokenExpires (v : option Z) (g : GoogleToken) : GoogleToken :=
  {| expiresAt := expiresAt g; key := key g; keyFile := keyFile g;
     iss := iss g; sub := sub g; scope := scope g; rawToken := rawToken g;
     tokenExpires := v; email := email g;
     additionalClaims := additionalClaims g;
     eagerRefreshThresholdMillis := eagerRefreshThresholdMillis g |}.
Definition set_eagerRefreshThresholdMillis (v : option Z) (g : GoogleToken)
  : GoogleToken :=
  {| expiresAt := expiresAt g; key := key g; keyFile := keyFile g;
     iss := iss g; sub := sub g; scope := scope g; rawToken := rawToken g;
     tokenExpires := tokenExpires g; email := email g;
     additionalClaims := additionalClaims g;
     eagerRefreshThresholdMillis := v |}.
Definition set_additionalClaims (v : option (gmap string jsval))
    (g : GoogleToken) : GoogleToken :=
  {| expiresAt := expiresAt g; key := key g; keyFile := keyFile g;
     iss := iss g; sub := sub g; scope := scope g; rawToken := rawToken g;
     tokenExpires := tokenExpires g; email := email g;
     additionalClaims := v;
     eagerRefreshThresholdMillis := eagerRefreshThresholdMillis g |}.

(** The getter [accessToken]. *)
Definition accessToken (g : GoogleToken) : option string :=
  match rawToken g with
  | Some t => access_token t
  | None => None
  end.

(** ** The outside world *)

Module GaxiosOptions.
Record t := {
  method : option string;
  url : string;
  data : list (string * string);
  headers : list (string * string);
  responseType : option string;
}.
End GaxiosOptions.

Module GaxiosResponse.
(** [r.data]; [None] when the response carries no JSON object. *)
Record t := {
  data : option TokenData;
}.
End GaxiosResponse.

(** The argument of [jws.sign]. *)
Record SignOptions := {
  header : list (string * string);
  payload : gmap string jsval;
  secret : option string;
}.

(** What [JSON.parse] yields for a key file, seen through the two
    properties that [getCredentials] reads and that [Credentials] types as
    strings.  A JSON value other than an object or [null] has neither
    property: it is a [JsonObject None None]. *)
Inductive KeyFileJson :=
| JsonNull
| JsonObject (private_key client_email : option string).

(** Library functions that run to completion when called. *)
Record Lib := {
  path_extname : string → string;
  JSON_parse : string → Result KeyFileJson;
  jws_sign : SignOptions → Result string;
}.

(** How the outside answers the operations that are awaited, and how much
    the clock moves while one of them is pending. *)
Record Outside := {
  fs_readFile : string → Result string;
  import_google_p12_pem : Result unit;
  p12_getPem : string → Result string;
  gaxios_request : GaxiosOptions.t → Result GaxiosResponse.t;
  elapsed : Z;
}.

(** What an observer of the process sees. *)
Inductive Event :=
| EvReadFile (path : string)
| EvImport
| EvGetPem (path : string)
| EvSign (o : SignOptions)
| EvRequest (o : GaxiosOptions.t).

Record World := {
  this : GoogleToken;
  clock : Z;                (* epoch milliseconds *)
  getPem_loaded : bool;     (* the module-level [getPem] is defined *)
  trace : list Event;       (* oldest first *)
}.

(** ** Programs *)

Inductive sync_op : Type → Type :=
| DateNow : sync_op Z
| GetThis : sync_op GoogleToken
| SetThis (g : GoogleToken) : sync_op unit
| PathExtname (p : string) : sync_op string
| JsonParse (s : string) : sync_op (Result KeyFileJson)
| JwsSign (o : SignOptions) : sync_op (Result string)
| GetPemLoaded : sync_op bool
| SetPemLoaded : sync_op unit.

Inductive io_op : Type → Type :=
| readFile (path : string) : io_op (Result string)
| import_p12 : io_op (Result unit)
| getPem (path : string) : io_op (Result string)
| request (o : GaxiosOptions.t) : io_op (Result GaxiosResponse.t).

Inductive prog (A : Type) : Type :=
| Ret (a : A)
| Throw (e : Error)
| Do {X : Type} (o : sync_op X) (k : X → prog A)
| Await {X : Type} (o : io_op X) (k : X → prog A).
Arguments Ret {A} a.
Arguments Throw {A} e.
Arguments Do {A X} o k.
Arguments Await {A X} o k.

Fixpoint bind {A B} (m : prog A) (f : A → prog B) : prog B :=
  match m with
  | Ret a => f a
  | Throw e => Throw e
  | Do o k => Do o (λ x, bind (k x) f)
  | Await o k => Await o (λ x, bind (k x) f)
  end.

#[export] Instance prog_ret : MRet prog := @Ret.
#[export] Instance prog_bind : MBind prog := λ A B f m, bind m f.

(** [try { m } catch (e) { h e }]. *)
Fixpoint try_catch {A} (m : prog A) (h : Error → prog A) : prog A :=
  match m with
  | Ret a => Ret a
  | Throw e => h e
  | Do o k => Do o (λ x, try_catch (k x) h)
  | Await o k => Await o (λ x, try_catch (k x) h)
  end.

Definition date_now : prog Z := Do DateNow Ret.
Definition get_this : prog GoogleToken := Do GetThis Ret.
Definition modify_this (f : GoogleToken → GoogleToken) : prog unit :=
  Do GetThis (λ g, Do (SetThis (f g)) Ret).
Definition sync {X} (o : sync_op X) : prog X := Do o Ret.
Definition await {X} (o : io_op X) : prog X := Await o Ret.
(** Using the result of a call that may have thrown. *)
Definition unwrap {A} (r : Result A) : prog A :=
  match r with Ok a => Ret a | Err e => Throw e end.

(** ** Interpretation *)

Definition set_world_this (g : GoogleToken) (w : World) : World :=
  {| this := g; clock := clock w; getPem_loaded := getPem_loaded w;
     trace := trace w |}.
Definition log (ev : Event) (w : World) : World :=
  {| this := this w; clock := clock w; getPem_loaded := getPem_loaded w;
     trace := trace w ++ [ev] |}.
Definition tick (dt : Z) (w : World) : World :=
  {| this := this w; clock := clock w + dt; getPem_loaded := getPem_loaded w;
     trace := trace w |}.
Definition set_getPem_loaded (w : World) : World :=
  {| this := this w; clock := clock w; getPem_loaded := true;
     trace := trace w |}.

Definition do_sync (lib : Lib) {X} (o : sync_op X) (w : World) : X * World :=
  match o in sync_op X return X * World with
  | DateNow => (clock w, w)
  | GetThis => (this w, w)
  | SetThis g => (tt, set_world_this g w)
  | PathExtname p => (path_extname lib p, w)
  | JsonParse s => (JSON_parse lib s, w)
  | JwsSign o => (jws_sign lib o, log (EvSign o) w)
  | GetPemLoaded => (getPem_loaded w, w)
  | SetPemLoaded => (tt, set_getPem_loaded w)
  end.

Definition event_of {X} (o : io_op X) : Event :=
  match o with
  | readFile p => EvReadFile p
  | import_p12 => EvImport
  | getPem p => EvGetPem p
  | request o => EvRequest o
  end.

Definition answer (out : Outside) {X} (o : io_op X) : X :=
  match o in io_op X return X with
  | readFile p => fs_readFile out p
  | import_p12 => import_google_p12_pem out
  | getPem p => p12_getPem out p
  | request o => gaxios_request out o
  end.

(** One call run to completion: every awaited operation is issued, observed,
    and answered by [out] after [elapsed out] milliseconds. *)
Fixpoint run {A} (lib : Lib) (out : Outside) (m : prog A) (w : World)
  : Result A * World :=
  match m with
  | Ret a => (Ok a, w)
  | Throw e => (Err e, w)
  | Do o k => let '(x, w') := do_sync lib o w in run lib out (k x) w'
  | Await o k =>
      run lib out (k (answer out o)) (tick (elapsed out) (log (event_of o) w))
  end.

(** ** Expiry queries *)

(** [now >= x] and [x <= bound] for a property that may be [undefined]; a
    comparison with [undefined] is false. *)
Definition js_ge (now : Z) (x : option Z) : bool :=
  match x with Some e => now >=? e | None => false end.
Definition js_le (x : option Z) (bound : Z) : bool :=
  match x with Some e => e <=? bound | None => false end.

Definition hasExpired : prog bool :=
  now ← date_now;
  this ← get_this;
  if truthy (rawToken this) && truthy (expiresAt this)
  then mret (js_ge now (expiresAt this))
  else mret true.

Definition isTokenExpiring : prog bool :=
  now ← date_now;
  this ← get_this;
  let eagerRefreshThresholdMillis :=
    js_nullish (eagerRefreshThresholdMillis this) 0 in
  if truthy (rawToken this) && truthy (expiresAt this)
  then mret (js_le (expiresAt this) (now + eagerRefreshThresholdMillis))
  else mret true.

(** ** Loading credentials *)

Definition MISSING_CREDENTIALS := "MISSING_CREDENTIALS".
Definition UNKNOWN_CERTIFICATE_TYPE := "UNKNOWN_CERTIFICATE_TYPE".

Definition getCredentials (keyFile : string) : prog Credentials :=
  ext ← sync (PathExtname keyFile);
  if String.eqb ext ".json" then
    key ← await (readFile keyFile) ≫= unwrap;
    body ← sync (JsonParse key) ≫= unwrap;
    match body with
    | JsonNull => Throw TypeError
    | JsonObject privateKey clientEmail =>
        if negb (truthy privateKey) || negb (truthy clientEmail) then
          Throw (new_ErrorWithCode
                   "private_key and client_email are required."
                   MISSING_CREDENTIALS)
        else
          (* both are truthy, hence strings *)
          Ret {| privateKey := the_string privateKey;
                 clientEmail := clientEmail |}
    end
  else if String.eqb ext ".der" || String.eqb ext ".crt"
          || String.eqb ext ".pem" then
    privateKey ← await (readFile keyFile) ≫= unwrap;
    Ret {| privateKey := privateKey; clientEmail := None |}
  else if String.eqb ext ".p12" || String.eqb ext ".pfx" then
    loaded ← sync GetPemLoaded;
    (if negb loaded
     then (await import_p12 ≫= unwrap);; sync SetPemLoaded
     else Ret tt);;
    privateKey ← await (getPem keyFile) ≫= unwrap;
    Ret {| privateKey := privateKey; clientEmail := None |}
  else
    Throw (new_ErrorWithCode
             ("Unknown certificate type. "
              +:+ "Type is determined based on file extension. "
              +:+ "Current supported extensions are *.json, *.pem, and *.p12.")
             UNKNOWN_CERTIFICATE_TYPE).

(** ** Configuration *)

(** [configure] assigns eight properties and leaves the others alone. *)
Definition configure_fields (options : TokenOptions.t) (g : GoogleToken)
  : GoogleToken :=
  {| keyFile := TokenOptions.keyFile options;
     key := TokenOptions.key options;
     rawToken := None;
     iss := js_or (TokenOptions.email options) (TokenOptions.iss options);
     sub := TokenOptions.sub options;
     additionalClaims := TokenOptions.additionalClaims options;
     scope := match TokenOptions.scope options with
              | Some (ScopeArray l) => Some (String.concat " " l)
              | Some (ScopeString s) => Some s
              | None => None
              end;
     eagerRefreshThresholdMillis :=
       TokenOptions.eagerRefreshThresholdMillis options;
     expiresAt := expiresAt g;
     tokenExpires := tokenExpires g;
     email := email g |}.

Definition configure (options : TokenOptions.t) : prog unit :=
  modify_this (configure_fields options).

(** An object on which no property has been assigned yet. *)
Definition blank : GoogleToken :=
  {| expiresAt := None; key := None; keyFile := None; iss := None;
     sub := None; scope := None; rawToken := None; tokenExpires := None;
     email := None; additionalClaims := None;
     eagerRefreshThresholdMillis := None |}.

(** [new GoogleToken(options)]. *)
Definition new_GoogleToken (options : option TokenOptions.t) : GoogleToken :=
  configure_fields (default TokenOptions.empty options) blank.

(** ** The exchange *)

Definition GOOGLE_TOKEN_URL := "https://www.googleapis.com/oauth2/v4/token".
Definition GOOGLE_REVOKE_TOKEN_URL :=
  "https://accounts.google.com/o/oauth2/revoke?token=".

(** [Object.assign(target, source)] copies every property of [source] onto
    [target]: where both have a property, the value of [source] stays. *)
Definition Object_assign (target source : gmap string jsval)
  : gmap string jsval :=
  source ∪ target.

Definition fixed_fields (iat : Z) (g : GoogleToken) : gmap string jsval :=
  list_to_map
    [("iss", str_or_undefined (iss g));
     ("scope", str_or_undefined (scope g));
     ("aud", JStr GOOGLE_TOKEN_URL);
     ("exp", JNum (iat + 3600));
     ("iat", JNum iat);
     ("sub", str_or_undefined (sub g))].

(** The argument that [requestToken] hands to [jws.sign]. *)
Definition assertion (iat : Z) (g : GoogleToken) : SignOptions :=
  let additionalClaims := default ∅ (additionalClaims g) in
  let payload := Object_assign (fixed_fields iat g) additionalClaims in
  {| header := [("alg", "RS256")]; payload := payload; secret := key g |}.

Definition token_request (signedJWT : string) : GaxiosOptions.t :=
  {| GaxiosOptions.method := Some "POST";
     GaxiosOptions.url := GOOGLE_TOKEN_URL;
     GaxiosOptions.data :=
       [("grant_type", "urn:ietf:params:oauth:grant-type:jwt-bearer");
        ("assertion", signedJWT)];
     GaxiosOptions.headers :=
       [("Content-Type", "application/x-www-form-urlencoded")];
     GaxiosOptions.responseType := Some "json" |}.

(** The message that the [catch] of [requestToken] gives the error. *)
Definition rewrite_error (e : Error) : Error :=
  let body :=
    match response e with
    | Some r =>
        match response_data r with
        | Some d => d
        | None => {| error := None; error_description := None |}
        end
    | None => {| error := None; error_description := None |}
    end in
  match error body with
  | Some err =>
      if truthy err then
        let desc :=
          match error_description body with
          | Some d => if truthy d then ": " +:+ d else ""
          | None => ""
          end in
        set_message e (err +:+ desc)
      else e
  | None => e
  end.

Definition requestToken : prog TokenData :=
  now ← date_now;
  let iat := now `div` 1000 in
  this ← get_this;
  signedJWT ← sync (JwsSign (assertion iat this)) ≫= unwrap;
  try_catch
    (r ← await (request (token_request signedJWT)) ≫= unwrap;
     modify_this (set_rawToken (GaxiosResponse.data r));;
     match GaxiosResponse.data r with
     | None => Throw TypeError
     | Some data =>
         modify_this
           (set_expiresAt
              match expires_in data with
              | Null | Undefined => None
              | Val n => Some ((iat + n) * 1000)
              end);;
         (* [this.rawToken], assigned from [r.data] two statements above *)
         Ret data
     end)
    (λ e,
       modify_this (set_rawToken None);;
       modify_this (set_tokenExpires None);;
       Throw (rewrite_error e)).

(** ** Getting a token *)

Definition ensureEmail : prog unit :=
  this ← get_this;
  if negb (truthy (iss this))
  then Throw (new_ErrorWithCode "email is required." MISSING_CREDENTIALS)
  else Ret tt.

(** [x === false] for an optional boolean. *)
Definition is_false (x : option bool) : bool :=
  match x with Some false => true | _ => false end.

Definition getTokenAsyncInner (opts : GetTokenOptions) : prog TokenData :=
  expiring ← isTokenExpiring;
  this ← get_this;
  if negb expiring && is_false (forceRefresh opts) then
    (* [this.rawToken!]: a record is stored, since it is not expiring
       (lemma [not_expiring_has_record]) *)
    match rawToken this with
    | Some token => Ret token
    | None => Throw TypeError
    end
  else if negb (truthy (key this)) && negb (truthy (keyFile this)) then
    Throw (new_Error "No key or keyFile set.")
  else
    (if negb (truthy (key this)) && truthy (keyFile this) then
       creds ← getCredentials (the_string (keyFile this));
       modify_this (set_key (Some (privateKey creds)));;
       modify_this (λ g, set_iss (js_or (clientEmail creds) (iss g)) g);;
       if negb (truthy (clientEmail creds)) then ensureEmail else Ret tt
     else Ret tt);;
    requestToken.

(** [getToken] completes the options it is given: a missing [forceRefresh]
    becomes [false], an explicit [undefined] stays. *)
Definition getToken_opts (given : option (option bool)) : GetTokenOptions :=
  {| forceRefresh := match given with Some v => v | None => Some false end |}.

(** ** Revocation *)

Definition revoke_request (token : string) : GaxiosOptions.t :=
  {| GaxiosOptions.method := None;
     GaxiosOptions.url := GOOGLE_REVOKE_TOKEN_URL +:+ token;
     GaxiosOptions.data := [];
     GaxiosOptions.headers := [];
     GaxiosOptions.responseType := None |}.

(** The options with which [revokeTokenAsync] reconfigures the agent. *)
Definition reset_options (g : GoogleToken) : TokenOptions.t :=
  {| TokenOptions.email := iss g;
     TokenOptions.sub := sub g;
     TokenOptions.key := key g;
     TokenOptions.keyFile := keyFile g;
     TokenOptions.scope := ScopeString <$> scope g;
     TokenOptions.additionalClaims := additionalClaims g;
     TokenOptions.iss := None;
     TokenOptions.eagerRefreshThresholdMillis := None |}.

Definition revokeTokenAsync : prog unit :=
  this ← get_this;
  if negb (truthy (accessToken this)) then
    Throw (new_Error "No token to revoke.")
  else
    (await (request (revoke_request (the_string (accessToken this))))
       ≫= unwrap);;
    this ← get_this;
    configure (reset_options this).

(** ** The event loop *)

(** The promise of a started asynchronous call: the call is suspended at an
    awaited operation, or it has settled. *)
Inductive Promise (A : Type) : Type :=
| Pending {X : Type} (o : io_op X) (k : X → prog A)
| Settled (r : Result A).
Arguments Pending {A X} o k.
Arguments Settled {A} r.

(** Running a program until it settles or issues an awaited operation. *)
Fixpoint advance {A} (lib : Lib) (m : prog A) (w : World)
  : Promise A * World :=
  match m with
  | Ret a => (Settled (Ok a), w)
  | Throw e => (Settled (Err e), w)
  | Do o k => let '(x, w') := do_sync lib o w in advance lib (k x) w'
  | Await o k => (Pending o k, log (event_of o) w)
  end.

(** A started call run to completion by [run]. *)
Definition run_promise {A} (lib : Lib) (out : Outside) (pr : Promise A)
    (w : World) : Result A * World :=
  match pr with
  | Settled r => (r, w)
  | Pending o k => run lib out (k (answer out o)) (tick (elapsed out) w)
  end.

(** A reference to a promise, as [inFlightRequest] holds one.  A promise is
    an object, hence truthy. *)
Abbreviation pid := nat.
Inductive PromiseRef := promise (p : pid).
#[export] Instance PromiseRef_truthy : Truthy PromiseRef := λ _, true.

(** A call of [getTokenAsync]: it awaits the promise that it started and
    stored, with its [finally] still to run; or it has returned the promise
    that it found in [inFlightRequest]; or its own promise has settled. *)
Inductive Caller :=
| Started (p : pid)
| Joined (p : pid)
| Returned (r : Result TokenData).

Record Loop := {
  world : World;
  inFlightRequest : option PromiseRef;
  promises : list (Promise TokenData);
  callers : list Caller;
}.

(** What can happen next: somebody calls [getToken], the operation that a
    promise awaits completes, or a call of [getTokenAsync] whose promise has
    settled gets its turn.  A suspension lasts until the awaited operation
    completes; of the further turns of the microtask queue only the one
    between the settlement of a promise and the [finally] of its starter is
    a step of its own, since [inFlightRequest] is written there. *)
Inductive Action :=
| call (given : option (option bool))
| complete (p : pid) (out : Outside)
| resume (c : nat).

Definition getTokenAsync (lib : Lib) (opts : GetTokenOptions) (s : Loop)
  : Loop :=
  if truthy (inFlightRequest s) && negb (truthy (forceRefresh opts)) then
    match inFlightRequest s with
    | Some (promise p) =>
        {| world := world s; inFlightRequest := inFlightRequest s;
           promises := promises s; callers := callers s ++ [Joined p] |}
    | None => s
    end
  else
    let '(pr, w) := advance lib (getTokenAsyncInner opts) (world s) in
    let p := length (promises s) in
    {| world := w; inFlightRequest := Some (promise p);
       promises := promises s ++ [pr];
       callers := callers s ++ [Started p] |}.

(** [getToken(opts)], in its promise-returning form. *)
Definition getToken (lib : Lib) (given : option (option bool)) (s : Loop)
  : Loop :=
  getTokenAsync lib (getToken_opts given) s.

Definition settle (c : nat) (r : Result TokenData) (s : Loop) : Loop :=
  {| world := world s; inFlightRequest := inFlightRequest s;
     promises := promises s;
     callers := <[c := Returned r]> (callers s) |}.

Definition clear_inFlightRequest (s : Loop) : Loop :=
  {| world := world s; inFlightRequest := None;
     promises := promises s; callers := callers s |}.

Definition step (lib : Lib) (a : Action) (s : Loop) : Loop :=
  match a with
  | call given => getToken lib given s
  | complete p out =>
      match promises s !! p with
      | Some (Pending o k) =>
          let '(pr, w) :=
            advance lib (k (answer out o)) (tick (elapsed out) (world s)) in
          {| world := w; inFlightRequest := inFlightRequest s;
             promises := <[p := pr]> (promises s); callers := callers s |}
      | _ => s
      end
  | resume c =>
      match callers s !! c with
      | Some (Started p) =>
          match promises s !! p with
          | Some (Settled r) => settle c r (clear_inFlightRequest s)
          | _ => s
          end
      | Some (Joined p) =>
          match promises s !! p with
          | Some (Settled r) => settle c r s
          | _ => s
          end
      | _ => s
      end
  end.

Definition exec (lib : Lib) (acts : list Action) (s : Loop) : Loop :=
  foldl (λ s a, step lib a s) s acts.

(** ** Observations on a trace *)

Definition is_request (ev : Event) : bool :=
  match ev with EvRequest _ => true | _ => false end.
Definition is_sign (ev : Event) : bool :=
  match ev with EvSign _ => true | _ => false end.

(** The number of HTTP requests issued so far. *)
Definition requests (tr : list Event) : nat :=
  length (filter (λ ev, is_request ev = true) tr).

(** The number of assertions handed to [jws.sign] so far. *)
Definition signs (tr : list Event) : nat :=
  length (filter (λ ev, is_sign ev = true) tr).

(** A promise whose exchange is on the wire. *)
Definition in_flight {A} (pr : Promise A) : bool :=
  match pr with
  | Pending o _ => is_request (event_of o)
  | Settled _ => false
  end.

(** ** Sample data *)

Definition sample_token : TokenData :=
  {| refresh_token := None; expires_in := Val 3600;
     access_token := Some "abc"; token_type := Some "Bearer";
     id_token := None |}.

Definition sample_lib : Lib :=
  {| path_extname := λ p,
       if String.eqb p "key.json" then ".json"
       else if String.eqb p "key.pem" then ".pem"
       else if String.eqb p "key.xyz" then ".xyz"
       else "";
     JSON_parse := λ s,
       if String.eqb s "null" then Ok JsonNull
       else if String.eqb s "{}" then Ok (JsonObject None None)
       else Ok (JsonObject (Some "-----BEGIN") (Some "svc@x.iam"));
     jws_sign := λ _, Ok "signed" |}.

(** An outside where every file holds [content] and every request is
    answered by [answer]. *)
Definition sample_outside (content : string)
    (answer : Result GaxiosResponse.t) : Outside :=
  {| fs_readFile := λ _, Ok content;
     import_google_p12_pem := Ok tt;
     p12_getPem := λ _, Ok content;
     gaxios_request := λ _, answer;
     elapsed := 250 |}.

Definition granted : Result GaxiosResponse.t :=
  Ok {| GaxiosResponse.data := Some sample_token |}.
Definition refused : Result GaxiosResponse.t :=
  Err {| message := "Request failed with status code 400"; code := None;
         response :=
           Some {| response_data :=
                     Some {| error := Some "invalid_grant";
                             error_description := Some "Invalid JWT" |} |} |}.

(** A grant of another record than [sample_token]. *)
Definition fresh_token : TokenData :=
  {| refresh_token := None; expires_in := Val 3600;
     access_token := Some "xyz"; token_type := Some "Bearer";
     id_token := None |}.
Definition renewed : Result GaxiosResponse.t :=
  Ok {| GaxiosResponse.data := Some fresh_token |}.

Definition world_of (g : GoogleToken) (now : Z) : World :=
  {| this := g; clock := now; getPem_loaded := false; trace := [] |}.

(** An agent configured with a key and an issuer. *)
Definition sample_agent : GoogleToken :=
  new_GoogleToken
    (Some {| TokenOptions.keyFile := None; TokenOptions.key := Some "KEY";
             TokenOptions.email := Some "svc@x.iam";
             TokenOptions.iss := None; TokenOptions.sub := None;
             TokenOptions.scope := Some (ScopeArray ["a"; "b"]);
             TokenOptions.additionalClaims := None;
             TokenOptions.eagerRefreshThresholdMillis := Some 1000 |}).

(** The same agent holding a record that expires at [E]. *)
Definition holding (E : Z) (g : GoogleToken) : GoogleToken :=
  set_expiresAt (Some E) (set_rawToken (Some sample_token) g).

(** An agent configured with a key and nothing else. *)
Definition key_only_agent : GoogleToken :=
  new_GoogleToken
    (Some {| TokenOptions.keyFile := None; TokenOptions.key := Some "KEY";
             TokenOptions.email := None; TokenOptions.iss := None;
             TokenOptions.sub := None; TokenOptions.scope := None;
             TokenOptions.additionalClaims := None;
             TokenOptions.eagerRefreshThresholdMillis := None |}).

(** An agent configured with a key file and, possibly, an issuer. *)
Definition keyFile_agent (path : string) (issuer : option string)
  : GoogleToken :=
  new_GoogleToken
    (Some {| TokenOptions.keyFile := Some path; TokenOptions.key := None;
             TokenOptions.email := None; TokenOptions.iss := issuer;
             TokenOptions.sub := None; TokenOptions.scope := None;
             TokenOptions.additionalClaims := None;
             TokenOptions.eagerRefreshThresholdMillis := None |}).

(** An agent whose issuer is the empty string, holding a record. *)
Definition empty_issuer_agent : GoogleToken :=
  holding 3600000
    (new_GoogleToken
       (Some {| TokenOptions.keyFile := None; TokenOptions.key := Some "KEY";
                TokenOptions.email := Some ""; TokenOptions.iss := Some "";
                TokenOptions.sub := None; TokenOptions.scope := None;
                TokenOptions.additionalClaims := None;
                TokenOptions.eagerRefreshThresholdMillis := None |})).

(** A loop in which nothing has been called yet. *)
Definition loop_of (w : World) : Loop :=
  {| world := w; inFlightRequest := None; promises := []; callers := [] |}.

(** ** The other getters *)

Definition idToken (g : GoogleToken) : option string :=
  match rawToken g with
  | Some t => id_token t
  | None => None
  end.
Definition tokenType (g : GoogleToken) : option string :=
  match rawToken g with
  | Some t => token_type t
  | None => None
  end.
Definition refreshToken (g : GoogleToken) : option string :=
  match rawToken g with
  | Some t => refresh_token t
  | None => None
  end.

(** ** Reading files where there is no file system *)

(** What the module puts in the place of [promisify(fs.readFile)] when
    [fs.readFile] is missing, as in a web browser. *)
Definition readFile_without_fs : string → Result string :=
  λ _, Err (new_ErrorWithCode "use key rather than keyFile."
              MISSING_CREDENTIALS).

(** ** Further observations *)

Definition is_load (ev : Event) : bool :=
  match ev with
  | EvReadFile _ | EvImport | EvGetPem _ => true
  | _ => false
  end.

(** The number of operations on key files so far: reads, conversions and
    imports of the converter. *)
Definition loads (tr : list Event) : nat :=
  length (filter (λ ev, is_load ev = true) tr).

(** A promise that has not settled. *)
Definition is_pending {A} (pr : Promise A) : bool :=
  match pr with
  | Pending _ _ => true
  | Settled _ => false
  end.

(** A call of [getToken] with [forceRefresh: true]. *)
Definition forced (a : Action) : bool :=
  match a with
  | call (Some (Some true)) => true
  | _ => false
  end.

(** What the loop keeps as long as no call forces a refresh: a promise that
    has not settled is the one in [inFlightRequest]; a caller whose [finally]
    is still to run waits for that one; and there is one such caller at
    most. *)
Definition one_exchange (s : Loop) : Prop :=
  (∀ q pr, promises s !! q = Some pr → is_pending pr = true →
           inFlightRequest s = Some (promise q))
  ∧ (∀ c p, callers s !! c = Some (Started p) →
            inFlightRequest s = Some (promise p))
  ∧ (∀ c c' p p', callers s !! c = Some (Started p) →
                  callers s !! c' = Some (Started p') → c = c').

(** The world in which [getTokenAsyncInner] goes on once [getCredentials]
    has returned [creds]: the private key is the key, and the client email,
    if there is one, is the issuer. *)
Definition with_credentials (creds : Credentials) (w : World) : World :=
  set_world_this
    (set_iss (js_or (clientEmail creds) (iss (this w)))
       (set_key (Some (privateKey creds)) (this w))) w.

(** ** Further sample data *)

(** A library that knows the extension of [key.p12] as well, and whose
    [jws.sign] answers [signed]. *)
Definition lib_signing (signed : Result string) : Lib :=
  {| path_extname := λ p,
       if String.eqb p "key.p12" then ".p12" else path_extname sample_lib p;
     JSON_parse := JSON_parse sample_lib;
     jws_sign := λ _, signed |}.

(** The outside of a web browser: no file can be read. *)
Definition browser (answer : Result GaxiosResponse.t) : Outside :=
  {| fs_readFile := readFile_without_fs;
     import_google_p12_pem := Ok tt;
     p12_getPem := λ _, Ok "";
     gaxios_request := λ _, answer;
     elapsed := 250 |}.

(** A failure of the network: an error without a response. *)
Definition unreachable : Result GaxiosResponse.t :=
  Err {| message := "getaddrinfo ENOTFOUND"; code := Some "ENOTFOUND";
         response := None |}.

(** * Properties *)

(** ** Laws of the interpreter *)

Section Interpreter.
Context (lib : Lib) (out : Outside).

Lemma run_bind {A B} (m : prog A) (f : A → prog B) (w : World) :
  run lib out (m ≫= f) w =
    match run lib out m w with
    | (Ok a, w') => run lib out (f a) w'
    | (Err e, w') => (Err e, w')
    end.
Proof.
  revert w. induction m as [a|e|X o k IH|X o k IH]; intros w; simpl.
  - reflexivity.
  - reflexivity.
  - destruct (do_sync lib o w) as [x w']. apply IH.
  - apply IH.
Qed.

Lemma run_try_catch {A} (m : prog A) (h : Error → prog A) (w : World) :
  run lib out (try_catch m h) w =
    match run lib out m w with
    | (Ok a, w') => (Ok a, w')
    | (Err e, w') => run lib out (h e) w'
    end.
Proof.
  revert w. induction m as [a|e|X o k IH|X o k IH]; intros w; simpl.
  - reflexivity.
  - reflexivity.
  - destruct (do_sync lib o w) as [x w']. apply IH.
  - apply IH.
Qed.

(** The two queries read the clock and the agent, and change nothing. *)
Lemma run_hasExpired (w : World) :
  run lib out hasExpired w =
    (Ok (if truthy (rawToken (this w)) && truthy (expiresAt (this w))
         then js_ge (clock w) (expiresAt (this w)) else true), w).
Proof.
  unfold hasExpired. simpl.
  destruct (truthy (rawToken (this w)) && truthy (expiresAt (this w)));
    reflexivity.
Qed.

Lemma run_isTokenExpiring (w : World) :
  run lib out isTokenExpiring w =
    (Ok (if truthy (rawToken (this w)) && truthy (expiresAt (this w))
         then js_le (expiresAt (this w))
                (clock w
                 + js_nullish (eagerRefreshThresholdMillis (this w)) 0)
         else true), w).
Proof.
  unfold isTokenExpiring. simpl.
  destruct (truthy (rawToken (this w)) && truthy (expiresAt (this w)));
    reflexivity.
Qed.
End Interpreter.

Lemma truthy_number (E : Z) : truthy (Some E) = true ↔ E ≠ 0.
Proof.
  unfold truthy, option_truthy, truthy, number_truthy.
  rewrite negb_true_iff, Z.eqb_neq. reflexivity.
Qed.

(** ** Expiry *)

(** C1, as the code has it: for an agent with a stored record and a non-zero
    [expiresAt = E], [hasExpired] is true iff the clock is at or after [E]
    and [isTokenExpiring] is true iff [E] is at most the clock plus the
    threshold ([eagerRefreshThresholdMillis], 0 when unset); with no record,
    no [expiresAt] or [expiresAt = 0], both are true.  Neither query changes
    the agent. *)
Theorem expiry_queries (lib : Lib) (out : Outside) (w : World) :
  (∀ t E, rawToken (this w) = Some t → expiresAt (this w) = Some E → E ≠ 0 →
     ∃ b1 b2,
       run lib out hasExpired w = (Ok b1, w) ∧ (b1 = true ↔ E ≤ clock w) ∧
       run lib out isTokenExpiring w = (Ok b2, w) ∧
       (b2 = true ↔
          E ≤ clock w + js_nullish (eagerRefreshThresholdMillis (this w)) 0))
  ∧ (rawToken (this w) = None ∨ expiresAt (this w) = None
     ∨ expiresAt (this w) = Some 0 →
     run lib out hasExpired w = (Ok true, w) ∧
     run lib out isTokenExpiring w = (Ok true, w)).
Proof.
  split.
  - intros t E Ht HE Hnz.
    apply truthy_number in Hnz.
    eexists _, _. rewrite run_hasExpired, run_isTokenExpiring.
    rewrite Ht, HE, Hnz. simpl.
    repeat split; try rewrite Z.geb_le; try rewrite Z.leb_le; lia.
  - intros H. rewrite run_hasExpired, run_isTokenExpiring.
    destruct H as [-> | [-> | ->]]; simpl; try done.
    all: destruct (rawToken (this w)); done.
Qed.

Lemma expiry_queries_witness :
  let w := world_of (holding 5000 sample_agent) 4500 in
  ∃ b1 b2,
    run sample_lib (sample_outside "" granted) hasExpired w = (Ok b1, w) ∧
    (b1 = true ↔ 5000 ≤ 4500) ∧
    run sample_lib (sample_outside "" granted) isTokenExpiring w = (Ok b2, w) ∧
    (b2 = true ↔ 5000 ≤ 4500 + 1000).
Proof.
  intros w.
  apply (proj1 (expiry_queries sample_lib (sample_outside "" granted) w)
           sample_token 5000); [reflexivity | reflexivity | lia].
Defined.

(** C1 as the specification words it fails where [expiresAt] is 0: the
    guard [this.rawToken && this.expiresAt] takes 0 for a missing value, so
    with the clock at 1700000000000 and a threshold of -2000000000000 the
    token is reported as expiring although 0 <= 1700000000000 -
    2000000000000 is false. *)
Lemma expiry_queries_zero_expiresAt :
  let g := set_eagerRefreshThresholdMillis (Some (-2000000000000))
             (holding 0 sample_agent) in
  let w := world_of g 1700000000000 in
  rawToken (this w) = Some sample_token ∧ expiresAt (this w) = Some 0 ∧
  run sample_lib (sample_outside "" granted) isTokenExpiring w = (Ok true, w) ∧
  ¬ (0 ≤ clock w + js_nullish (eagerRefreshThresholdMillis (this w)) 0).
Proof.
  repeat split. vm_compute. intros H. apply H. reflexivity.
Qed.

(** ** The exchange *)

Arguments assertion : simpl never.
Arguments token_request : simpl never.
Arguments rewrite_error : simpl never.

(** What [requestToken] leaves behind when the request has been answered
    with a record. *)
Lemma run_requestToken_granted (lib : Lib) (out : Outside) (w : World)
    (jwt : string) (d : TokenData) :
  let iat := clock w `div` 1000 in
  jws_sign lib (assertion iat (this w)) = Ok jwt →
  gaxios_request out (token_request jwt)
    = Ok {| GaxiosResponse.data := Some d |} →
  run lib out requestToken w =
    (Ok d,
     {| this := set_expiresAt
                  match expires_in d with
                  | Null | Undefined => None
                  | Val n => Some ((iat + n) * 1000)
                  end
                  (set_rawToken (Some d) (this w));
        clock := clock w + elapsed out;
        getPem_loaded := getPem_loaded w;
        trace := (trace w ++ [EvSign (assertion iat (this w))])
                   ++ [EvRequest (token_request jwt)] |}).
Proof.
  intros iat Hsign Hreq. unfold requestToken. simpl.
  fold iat. rewrite Hsign. simpl. rewrite Hreq. simpl. reflexivity.
Qed.

(** What it leaves behind when the request has failed. *)
Lemma run_requestToken_refused (lib : Lib) (out : Outside) (w : World)
    (jwt : string) (e : Error) :
  let iat := clock w `div` 1000 in
  jws_sign lib (assertion iat (this w)) = Ok jwt →
  gaxios_request out (token_request jwt) = Err e →
  run lib out requestToken w =
    (Err (rewrite_error e),
     {| this := set_tokenExpires None (set_rawToken None (this w));
        clock := clock w + elapsed out;
        getPem_loaded := getPem_loaded w;
        trace := (trace w ++ [EvSign (assertion iat (this w))])
                   ++ [EvRequest (token_request jwt)] |}).
Proof.
  intros iat Hsign Hreq. unfold requestToken. simpl.
  fold iat. rewrite Hsign. simpl. rewrite Hreq. simpl. reflexivity.
Qed.

(** C2: after an exchange that is answered with a record [d], the agent
    stores [d]; when [d] has [expires_in = n], [expiresAt] is
    [(issuedAtSeconds + n) * 1000], where [issuedAtSeconds] is the clock in
    whole seconds when the assertion was built, however long the answer took;
    when [d] has no [expires_in], [expiresAt] is absent. *)
Theorem expiresAt_after_exchange (lib : Lib) (out : Outside) (w : World)
    (jwt : string) (d : TokenData) :
  let issuedAtSeconds := clock w `div` 1000 in
  jws_sign lib (assertion issuedAtSeconds (this w)) = Ok jwt →
  gaxios_request out (token_request jwt)
    = Ok {| GaxiosResponse.data := Some d |} →
  let result := run lib out requestToken w in
  fst result = Ok d ∧
  rawToken (this (snd result)) = Some d ∧
  (∀ n, expires_in d = Val n →
        expiresAt (this (snd result)) = Some ((issuedAtSeconds + n) * 1000)) ∧
  (expires_in d = Undefined → expiresAt (this (snd result)) = None).
Proof.
  intros iat Hsign Hreq result. subst result.
  rewrite (run_requestToken_granted lib out w jwt d Hsign Hreq). simpl.
  repeat split.
  - intros n ->. reflexivity.
  - intros ->. reflexivity.
Qed.

Lemma expiresAt_after_exchange_witness :
  let w := world_of sample_agent 1700000000123 in
  let result := run sample_lib (sample_outside "" granted) requestToken w in
  fst result = Ok sample_token ∧
  rawToken (this (snd result)) = Some sample_token ∧
  (∀ n, expires_in sample_token = Val n →
        expiresAt (this (snd result)) = Some ((1700000000 + n) * 1000)) ∧
  (expires_in sample_token = Undefined →
   expiresAt (this (snd result)) = None).
Proof.
  apply (expiresAt_after_exchange sample_lib (sample_outside "" granted)
           (world_of sample_agent 1700000000123) "signed" sample_token);
    reflexivity.
Defined.

(** ** The assertion *)

Lemma lookup_Object_assign (target source : gmap string jsval) (k : string) :
  Object_assign target source !! k =
    match source !! k with
    | Some v => Some v
    | None => target !! k
    end.
Proof.
  unfold Object_assign. rewrite lookup_union.
  destruct (source !! k), (target !! k); reflexivity.
Qed.

Lemma run_requestToken_trace (lib : Lib) (out : Outside) (w : World) :
  let iat := clock w `div` 1000 in
  trace (snd (run lib out requestToken w)) =
    (trace w ++ EvSign (assertion iat (this w)) ::
       match jws_sign lib (assertion iat (this w)) with
       | Ok jwt => [EvRequest (token_request jwt)]
       | Err _ => []
       end)%list.
Proof.
  intros iat. unfold requestToken. simpl. fold iat.
  destruct (jws_sign lib (assertion iat (this w))) as [jwt|e]; simpl.
  - destruct (gaxios_request out (token_request jwt)) as [[[d|]]|e]; simpl;
      rewrite <- app_assoc; reflexivity.
  - reflexivity.
Qed.

(** C4, as the code has it: [requestToken] signs, and then posts, a payload
    in which every configured additional claim appears with its own value,
    also under the name of a fixed field; under each name that no additional
    claim uses, the payload has the fixed field: [iss], [scope] and [sub] of
    the agent, [aud] the token endpoint, [iat = issuedAtSeconds] and
    [exp = issuedAtSeconds + 3600]. *)
Theorem assertion_payload (lib : Lib) (out : Outside) (w : World) :
  let issuedAtSeconds := clock w `div` 1000 in
  let g := this w in
  let claims := default ∅ (additionalClaims g) in
  let signed := assertion issuedAtSeconds g in
  trace (snd (run lib out requestToken w)) =
    (trace w ++ EvSign signed ::
       match jws_sign lib signed with
       | Ok jwt => [EvRequest (token_request jwt)]
       | Err _ => []
       end)%list
  ∧ (∀ k v, claims !! k = Some v → payload signed !! k = Some v)
  ∧ (∀ k, claims !! k = None →
          payload signed !! k = fixed_fields issuedAtSeconds g !! k)
  ∧ fixed_fields issuedAtSeconds g !! "iss" = Some (str_or_undefined (iss g))
  ∧ fixed_fields issuedAtSeconds g !! "scope"
      = Some (str_or_undefined (scope g))
  ∧ fixed_fields issuedAtSeconds g !! "aud" = Some (JStr GOOGLE_TOKEN_URL)
  ∧ fixed_fields issuedAtSeconds g !! "exp"
      = Some (JNum (issuedAtSeconds + 3600))
  ∧ fixed_fields issuedAtSeconds g !! "iat" = Some (JNum issuedAtSeconds)
  ∧ fixed_fields issuedAtSeconds g !! "sub" = Some (str_or_undefined (sub g)).
Proof.
  intros iat g claims signed.
  split; [apply run_requestToken_trace|].
  split; [|split].
  - intros k v Hk. unfold signed, assertion. simpl.
    rewrite lookup_Object_assign. fold claims. rewrite Hk. reflexivity.
  - intros k Hk. unfold signed, assertion. simpl.
    rewrite lookup_Object_assign. fold claims. rewrite Hk. reflexivity.
  - unfold fixed_fields. repeat split; reflexivity.
Qed.

Lemma assertion_payload_witness :
  let g := set_additionalClaims (Some {[ "target_audience" := JStr "aud2" ]})
             sample_agent in
  payload (assertion 1700000000 g) !! "target_audience" = Some (JStr "aud2")
  ∧ payload (assertion 1700000000 g) !! "exp" = Some (JNum 1700003600).
Proof.
  intros g.
  pose proof (assertion_payload sample_lib (sample_outside "" granted)
                (world_of g 1700000000999)) as (_ & Hclaim & Hfixed & H).
  split.
  - apply Hclaim. reflexivity.
  - rewrite Hfixed by reflexivity. apply H.
Defined.

(** C4 as the specification words it fails: an additional claim named [iss]
    replaces the issuer of the agent in the signed payload. *)
Lemma additional_claim_overrides_iss :
  let g := set_additionalClaims (Some {[ "iss" := JStr "other@x.iam" ]})
             sample_agent in
  let w := world_of g 1700000000999 in
  iss g = Some "svc@x.iam" ∧
  ∃ signed jwt,
    trace (snd (run sample_lib (sample_outside "" granted) requestToken w))
      = [EvSign signed; EvRequest (token_request jwt)] ∧
    payload signed !! "iss" = Some (JStr "other@x.iam").
Proof.
  intros g w. split; [reflexivity|].
  eexists _, _. split; [reflexivity|]. reflexivity.
Qed.

(** ** A failed exchange *)

(** After a failed exchange the record and [tokenExpires] are cleared, and
    [expiresAt] is what it was. *)
Lemma failed_exchange (lib : Lib) (out : Outside) (w : World)
    (jwt : string) (e : Error) :
  jws_sign lib (assertion (clock w `div` 1000) (this w)) = Ok jwt →
  gaxios_request out (token_request jwt) = Err e →
  let result := run lib out requestToken w in
  fst result = Err (rewrite_error e) ∧
  rawToken (this (snd result)) = None ∧
  tokenExpires (this (snd result)) = None ∧
  expiresAt (this (snd result)) = expiresAt (this w).
Proof.
  intros Hsign Hreq result. subst result.
  rewrite (run_requestToken_refused lib out w jwt e Hsign Hreq).
  repeat split.
Qed.

(** C5 at a failing input: an agent that holds a record expiring at
    3600000 and whose next exchange is refused.  The error is passed on with
    the message of the server and the record is cleared, but [expiresAt] is
    still 3600000: the [catch] clears [tokenExpires], a property that nothing
    reads, where the claim has [expiresAt]. *)
Theorem failed_exchange_keeps_expiresAt :
  let w := world_of (holding 3600000 sample_agent) 1000 in
  let result := run sample_lib (sample_outside "" refused) requestToken w in
  (∃ e, fst result = Err e ∧ message e = "invalid_grant: Invalid JWT") ∧
  rawToken (this (snd result)) = None ∧
  tokenExpires (this (snd result)) = None ∧
  expiresAt (this (snd result)) = Some 3600000.
Proof.
  intros w result. split; [eexists; split; reflexivity|].
  repeat split.
Qed.

(** ** The cached record *)

(** A token that is not expiring is a stored token. *)
Lemma not_expiring_has_record (lib : Lib) (out : Outside) (w : World) :
  fst (run lib out isTokenExpiring w) = Ok false →
  ∃ token, rawToken (this w) = Some token.
Proof.
  rewrite run_isTokenExpiring. simpl. intros H.
  destruct (rawToken (this w)) as [token|]; [eauto|discriminate].
Qed.

(** On its own, [getTokenAsyncInner] returns the stored record when
    [isTokenExpiring()] is false and [forceRefresh] is [false], and leaves
    the world as it found it. *)
Lemma run_getTokenAsyncInner_cached (lib : Lib) (out : Outside) (w : World)
    (token : TokenData) :
  fst (run lib out isTokenExpiring w) = Ok false →
  rawToken (this w) = Some token →
  run lib out (getTokenAsyncInner {| forceRefresh := Some false |}) w
  = (Ok token, w).
Proof.
  intros H Htoken. unfold getTokenAsyncInner.
  rewrite run_bind. rewrite run_isTokenExpiring in *. simpl in H.
  injection H as H. rewrite H. simpl. rewrite Htoken. reflexivity.
Qed.

(** ** Credential files *)



(** ** Revocation *)

Arguments revoke_request : simpl never.

Lemma run_revokeTokenAsync_none (lib : Lib) (out : Outside) (w : World) :
  truthy (accessToken (this w)) = false →
  run lib out revokeTokenAsync w = (Err (new_Error "No token to revoke."), w).
Proof.
  intros H. unfold revokeTokenAsync. simpl. rewrite H. reflexivity.
Qed.

Lemma run_revokeTokenAsync_done (lib : Lib) (out : Outside) (w : World)
    (token : string) (r : GaxiosResponse.t) :
  accessToken (this w) = Some token →
  truthy token = true →
  gaxios_request out (revoke_request token) = Ok r →
  run lib out revokeTokenAsync w =
    (Ok tt,
     {| this := configure_fields (reset_options (this w)) (this w);
        clock := clock w + elapsed out;
        getPem_loaded := getPem_loaded w;
        trace := trace w ++ [EvRequest (revoke_request token)] |}).
Proof.
  intros Hacc Htoken Hreq.
  assert (truthy (accessToken (this w)) = true) as Htruthy
    by (rewrite Hacc; exact Htoken).
  unfold revokeTokenAsync. simpl. rewrite Htruthy. simpl.
  rewrite Hacc. simpl. rewrite Hreq. reflexivity.
Qed.

(** C7, as the code has it: without an access token [revokeTokenAsync]
    fails with the error [No token to revoke.] and changes nothing.  After a
    successful revoke the record is cleared, so that [accessToken] is
    undefined and both expiry queries answer true; [sub], [key], [keyFile],
    [scope] and [additionalClaims] are what they were, and so is [iss]
    unless it was the empty string. *)
Theorem revokeToken_effect (lib : Lib) (out : Outside) (w : World) :
  let result := run lib out revokeTokenAsync w in
  let g := this w in
  let g' := this (snd result) in
  (truthy (accessToken g) = false →
   fst result = Err (new_Error "No token to revoke.") ∧ snd result = w)
  ∧ (∀ token r,
       accessToken g = Some token → truthy token = true →
       gaxios_request out (revoke_request token) = Ok r →
       fst result = Ok tt ∧
       accessToken g' = None ∧ rawToken g' = None ∧
       fst (run lib out hasExpired (snd result)) = Ok true ∧
       fst (run lib out isTokenExpiring (snd result)) = Ok true ∧
       sub g' = sub g ∧ key g' = key g ∧ keyFile g' = keyFile g ∧
       scope g' = scope g ∧ additionalClaims g' = additionalClaims g ∧
       (iss g ≠ Some "" → iss g' = iss g)).
Proof.
  intros result g g'. subst result g g'. split.
  - intros H. rewrite run_revokeTokenAsync_none by exact H. split; reflexivity.
  - intros token r Hacc Htoken Hreq.
    rewrite (run_revokeTokenAsync_done lib out w token r Hacc Htoken Hreq).
    rewrite run_hasExpired, run_isTokenExpiring. simpl.
    repeat split.
    + destruct (scope (this w)); reflexivity.
    + intros Hiss. unfold js_or.
      destruct (iss (this w)) as [issuer|]; [|reflexivity].
      assert (truthy (Some issuer) = true) as ->; [|reflexivity].
      apply negb_true_iff, String.eqb_neq. congruence.
Qed.

Lemma revokeToken_effect_witness :
  let w := world_of (holding 3600000 sample_agent) 1000 in
  let result := run sample_lib (sample_outside "" granted) revokeTokenAsync w in
  (fst (run sample_lib (sample_outside "" granted) revokeTokenAsync
          (world_of sample_agent 1000))
   = Err (new_Error "No token to revoke."))
  ∧ fst result = Ok tt ∧ accessToken (this (snd result)) = None
  ∧ key (this (snd result)) = Some "KEY"
  ∧ iss (this (snd result)) = Some "svc@x.iam".
Proof.
  intros w result.
  pose proof (revokeToken_effect sample_lib (sample_outside "" granted)
                (world_of sample_agent 1000)) as [Hnone _].
  pose proof (revokeToken_effect sample_lib (sample_outside "" granted) w)
    as [_ Hdone].
  specialize (Hnone eq_refl) as [Hnone _].
  specialize (Hdone "abc" _ eq_refl eq_refl eq_refl)
    as (H1 & H2 & _ & _ & _ & _ & H3 & _ & _ & _ & H4).
  split; [exact Hnone|]. split; [exact H1|]. split; [exact H2|].
  split; [exact H3|]. apply H4. discriminate.
Defined.

(** C7 as the specification words it fails: [configure] does not assign
    [expiresAt], which keeps its value through a successful revoke; and an
    issuer that is the empty string is replaced by [undefined]. *)
Lemma revokeToken_keeps_expiresAt :
  let out := sample_outside "" granted in
  let result :=
    run sample_lib out revokeTokenAsync
      (world_of (holding 3600000 sample_agent) 1000) in
  let result' :=
    run sample_lib out revokeTokenAsync (world_of empty_issuer_agent 1000) in
  (fst result = Ok tt ∧ expiresAt (this (snd result)) = Some 3600000)
  ∧ (fst result' = Ok tt ∧ iss empty_issuer_agent = Some ""
     ∧ iss (this (snd result')) = None).
Proof.
  repeat split.
Qed.

(** C10: a successful revoke leaves [eagerRefreshThresholdMillis]
    undefined, so that an expiry check on a record stored afterwards
    compares with the clock plus 0: the options of the reconfiguration carry
    no threshold, and [configure] assigns the property from its options
    whatever the agent held. *)
Theorem revokeToken_resets_threshold (lib : Lib) (out : Outside) (w : World)
    (token : string) (r : GaxiosResponse.t) :
  accessToken (this w) = Some token →
  truthy token = true →
  gaxios_request out (revoke_request token) = Ok r →
  let result := run lib out revokeTokenAsync w in
  let g' := this (snd result) in
  fst result = Ok tt ∧
  eagerRefreshThresholdMillis g' = None ∧
  (∀ d E now, E ≠ 0 →
     fst (run lib out isTokenExpiring
            (world_of (set_expiresAt (Some E) (set_rawToken (Some d) g')) now))
     = Ok (E <=? now + 0)) ∧
  TokenOptions.eagerRefreshThresholdMillis (reset_options (this w)) = None ∧
  (∀ options g,
     eagerRefreshThresholdMillis (configure_fields options g)
     = TokenOptions.eagerRefreshThresholdMillis options).
Proof.
  intros Hacc Htoken Hreq result g'. subst result g'.
  rewrite (run_revokeTokenAsync_done lib out w token r Hacc Htoken Hreq).
  cbn [fst snd this].
  split; [reflexivity|]. split; [reflexivity|].
  split; [|split; reflexivity].
  intros d E now HE. rewrite run_isTokenExpiring.
  apply truthy_number in HE. cbn [this world_of rawToken expiresAt
    set_expiresAt set_rawToken eagerRefreshThresholdMillis clock fst].
  rewrite HE. reflexivity.
Qed.

Lemma revokeToken_resets_threshold_witness :
  let w := world_of (holding 3600000 sample_agent) 1000 in
  eagerRefreshThresholdMillis (this w) = Some 1000 ∧
  eagerRefreshThresholdMillis
    (this (snd (run sample_lib (sample_outside "" granted)
                  revokeTokenAsync w))) = None.
Proof.
  intros w. split; [reflexivity|].
  apply (revokeToken_resets_threshold sample_lib (sample_outside "" granted)
           w "abc" {| GaxiosResponse.data := Some sample_token |});
    reflexivity.
Defined.

(** ** The issuer *)

Lemma signs_app (tr tr' : list Event) :
  signs (tr ++ tr') = (signs tr + signs tr')%nat.
Proof. unfold signs. rewrite filter_app, length_app. reflexivity. Qed.

Lemma requests_app (tr tr' : list Event) :
  requests (tr ++ tr') = (requests tr + requests tr')%nat.
Proof. unfold requests. rewrite filter_app, length_app. reflexivity. Qed.

Lemma signs_singleton (ev : Event) :
  signs [ev] = if is_sign ev then 1%nat else 0%nat.
Proof. destruct ev; reflexivity. Qed.

Lemma requests_singleton (ev : Event) :
  requests [ev] = if is_request ev then 1%nat else 0%nat.
Proof. destruct ev; reflexivity. Qed.

(** Loading credentials reads files and nothing else: the agent is not
    touched, nothing is signed and nothing is requested. *)
Lemma run_getCredentials_frame (lib : Lib) (out : Outside) (path : string)
    (w : World) :
  let result := run lib out (getCredentials path) w in
  this (snd result) = this w ∧
  signs (trace (snd result)) = signs (trace w) ∧
  requests (trace (snd result)) = requests (trace w).
Proof.
  intros result. subst result. unfold getCredentials. simpl.
  repeat match goal with
         | |- context [if ?b then _ else _] => destruct b; simpl
         | |- context [unwrap ?r] => destruct r; simpl
         | |- context [match ?r with JsonNull => _ | JsonObject _ _ => _ end] =>
             destruct r; simpl
         end.
  all: rewrite ?signs_app, ?requests_app, ?signs_singleton,
    ?requests_singleton; simpl; repeat split; lia.
Qed.

Opaque requestToken getCredentials.

(** C8, as the code has it: the issuer is checked when the key comes from
    the key file, and only then.  When the agent has no key and the call
    gets as far as signing an assertion, it does so from a world in which
    [iss] is not empty; when the key is configured directly and a refresh is
    due, the call is [requestToken] and nothing else, whatever [iss]
    holds. *)
Theorem issuer_checked_when_key_loaded (lib : Lib) (out : Outside)
    (opts : GetTokenOptions) (w : World) :
  let result := run lib out (getTokenAsyncInner opts) w in
  (truthy (key (this w)) = false →
   signs (trace (snd result)) ≠ signs (trace w) →
   ∃ w1, result = run lib out requestToken w1 ∧
         truthy (iss (this w1)) = true)
  ∧ (truthy (key (this w)) = true →
     fst (run lib out isTokenExpiring w) = Ok true
     ∨ forceRefresh opts ≠ Some false →
     result = run lib out requestToken w).
Proof.
  intros result. subst result. unfold getTokenAsyncInner.
  rewrite run_bind, run_isTokenExpiring.
  set (expiring := if truthy (rawToken (this w)) && truthy (expiresAt (this w))
                   then _ else true).
  simpl. split.
  - intros Hkey Hsigned. rewrite Hkey in *. simpl in *.
    destruct (negb expiring && is_false (forceRefresh opts)).
    { destruct (rawToken (this w)); simpl in Hsigned; congruence. }
    destruct (truthy (keyFile (this w))) eqn:HkeyFile; simpl in *;
      [|congruence].
    rewrite run_bind in *. rewrite run_bind in *.
    pose proof (run_getCredentials_frame lib out
                  (the_string (keyFile (this w))) w) as (Hthis & Hsigns & _).
    destruct (run lib out (getCredentials (the_string (keyFile (this w)))) w)
      as [[creds|e] wc]; simpl in *; [|congruence].
    rewrite Hthis in *.
    destruct (truthy (clientEmail creds)) eqn:Hemail; simpl in *.
    + eexists. split; [reflexivity|]. simpl. unfold js_or.
      rewrite Hemail. exact Hemail.
    + unfold js_or in *. rewrite Hemail in *.
      destruct (truthy (iss (this w))) eqn:Hiss; simpl in *; [|congruence].
      eexists. split; [reflexivity|]. exact Hiss.
  - intros Hkey Hdue. rewrite Hkey. simpl.
    assert (negb expiring && is_false (forceRefresh opts) = false) as ->.
    { destruct Hdue as [Hdue|Hdue].
      - injection Hdue as Hdue. fold expiring in Hdue. rewrite Hdue.
        reflexivity.
      - destruct (forceRefresh opts) as [[]|]; simpl;
          rewrite ?andb_false_r; congruence. }
    reflexivity.
Qed.

Transparent requestToken getCredentials.

Lemma issuer_checked_when_key_loaded_witness :
  let out := sample_outside "{...}" granted in
  let opts := {| forceRefresh := Some false |} in
  (∃ w1, run sample_lib out (getTokenAsyncInner opts)
           (world_of (keyFile_agent "key.json" None) 1000)
         = run sample_lib out requestToken w1
         ∧ truthy (iss (this w1)) = true)
  ∧ run sample_lib out (getTokenAsyncInner opts) (world_of sample_agent 1000)
    = run sample_lib out requestToken (world_of sample_agent 1000).
Proof.
  intros out opts. split.
  - apply (proj1 (issuer_checked_when_key_loaded sample_lib out opts
                    (world_of (keyFile_agent "key.json" None) 1000)));
      [reflexivity | vm_compute; lia].
  - apply (proj2 (issuer_checked_when_key_loaded sample_lib out opts
                    (world_of sample_agent 1000)));
      [reflexivity | left; reflexivity].
Defined.

(** C8 as the specification words it fails: an agent configured with a key
    and no issuer signs and posts an assertion whose [iss] is [undefined]. *)
Lemma exchange_without_issuer :
  let w := world_of key_only_agent 1000 in
  let result :=
    run sample_lib (sample_outside "" granted)
      (getTokenAsyncInner {| forceRefresh := Some false |}) w in
  iss (this w) = None ∧ iss (this (snd result)) = None ∧
  fst result = Ok sample_token ∧
  ∃ signed jwt,
    trace (snd result) = [EvSign signed; EvRequest (token_request jwt)] ∧
    payload signed !! "iss" = Some JUndefined.
Proof.
  intros w result. repeat split.
  eexists _, _. split; reflexivity.
Qed.

(** ** Single flight *)

Lemma advance_bind {A B} (lib : Lib) (m : prog A) (f : A → prog B)
    (w : World) :
  advance lib (m ≫= f) w =
    match advance lib m w with
    | (Settled (Ok a), w') => advance lib (f a) w'
    | (Settled (Err e), w') => (Settled (Err e), w')
    | (Pending o k, w') => (Pending o (λ x, k x ≫= f), w')
    end.
Proof.
  revert w. induction m as [a|e|X o k IH|X o k IH]; intros w; simpl.
  - reflexivity.
  - reflexivity.
  - destruct (do_sync lib o w) as [x w']. apply IH.
  - reflexivity.
Qed.

(** The two semantics agree: [run] does what [advance] does up to the
    first awaited operation, lets the outside answer it, and goes on. *)
Lemma advance_run {A} (lib : Lib) (out : Outside) (m : prog A) (w : World) :
  run lib out m w =
    let '(pr, w') := advance lib m w in run_promise lib out pr w'.
Proof.
  revert w. induction m as [a|e|X o k IH|X o k IH]; intros w; simpl.
  - reflexivity.
  - reflexivity.
  - destruct (do_sync lib o w) as [x w1]. apply IH.
  - reflexivity.
Qed.

Lemma advance_isTokenExpiring (lib : Lib) (w : World) :
  advance lib isTokenExpiring w =
    (Settled
       (Ok (if truthy (rawToken (this w)) && truthy (expiresAt (this w))
            then js_le (expiresAt (this w))
                   (clock w
                    + js_nullish (eagerRefreshThresholdMillis (this w)) 0)
            else true)), w).
Proof.
  unfold isTokenExpiring. simpl.
  destruct (truthy (rawToken (this w)) && truthy (expiresAt (this w)));
    reflexivity.
Qed.

Lemma exec_cons (lib : Lib) (a : Action) (acts : list Action) (s : Loop) :
  exec lib (a :: acts) s = exec lib acts (step lib a s).
Proof. reflexivity. Qed.

Lemma exec_app (lib : Lib) (acts acts' : list Action) (s : Loop) :
  exec lib (acts ++ acts') s = exec lib acts' (exec lib acts s).
Proof. apply foldl_app. Qed.

(** While [inFlightRequest] holds a promise, a call that does not force a
    refresh returns that promise and does nothing else. *)
Lemma call_joins (lib : Lib) (s : Loop) (p : pid)
    (given : option (option bool)) :
  inFlightRequest s = Some (promise p) →
  given ≠ Some (Some true) →
  step lib (call given) s =
    {| world := world s; inFlightRequest := Some (promise p);
       promises := promises s; callers := callers s ++ [Joined p] |}.
Proof.
  intros Hp Hgiven. unfold step, getToken, getTokenAsync. rewrite Hp.
  destruct given as [[[]|]|]; simpl; congruence.
Qed.

Lemma calls_join (lib : Lib) (n : nat) (s : Loop) (p : pid) :
  inFlightRequest s = Some (promise p) →
  exec lib (replicate n (call None)) s =
    {| world := world s; inFlightRequest := Some (promise p);
       promises := promises s;
       callers := callers s ++ replicate n (Joined p) |}.
Proof.
  revert s. induction n as [|n IH]; intros s Hp.
  - simpl. rewrite app_nil_r, <- Hp. destruct s; reflexivity.
  - cbn [replicate]. rewrite exec_cons, call_joins with (p := p) by done.
    rewrite IH by reflexivity. simpl. rewrite <- app_assoc. reflexivity.
Qed.

(** With no promise in [inFlightRequest], a call starts
    [getTokenAsyncInner], stores its promise and waits for it. *)
Lemma call_starts (lib : Lib) (s : Loop) (given : option (option bool)) :
  inFlightRequest s = None →
  step lib (call given) s =
    {| world := snd (advance lib (getTokenAsyncInner (getToken_opts given))
                       (world s));
       inFlightRequest := Some (promise (length (promises s)));
       promises :=
         promises s
           ++ [fst (advance lib (getTokenAsyncInner (getToken_opts given))
                      (world s))];
       callers := callers s ++ [Started (length (promises s))] |}.
Proof.
  intros Hnone. unfold step, getToken, getTokenAsync. rewrite Hnone.
  change (truthy (@None PromiseRef)) with false. cbn [andb].
  destruct (advance lib (getTokenAsyncInner (getToken_opts given)) (world s)).
  reflexivity.
Qed.

(** Completions of the operations that a promise awaits, all answered by
    [out]: when they settle the promise, it has done what [run] does. *)
Lemma completes_run (lib : Lib) (out : Outside) (p : pid) (K : nat)
    (s : Loop) (pr : Promise TokenData) (r : Result TokenData) :
  promises s !! p = Some pr →
  let s' := exec lib (replicate K (complete p out)) s in
  promises s' !! p = Some (Settled r) →
  run_promise lib out pr (world s) = (r, world s') ∧
  inFlightRequest s' = inFlightRequest s ∧
  callers s' = callers s ∧
  length (promises s') = length (promises s).
Proof.
  revert s pr. induction K as [|K IH]; intros s pr Hpr s' Hsettled.
  - subst s'. simpl in *. rewrite Hpr in Hsettled.
    injection Hsettled as ->. repeat split.
  - subst s'. cbn [replicate] in *. rewrite exec_cons in *.
    destruct pr as [X o k|r0].
    + assert (step lib (complete p out) s =
                {| world := snd (advance lib (k (answer out o))
                                   (tick (elapsed out) (world s)));
                   inFlightRequest := inFlightRequest s;
                   promises :=
                     <[p := fst (advance lib (k (answer out o))
                                   (tick (elapsed out) (world s)))]>
                       (promises s);
                   callers := callers s |}) as Hstep.
      { unfold step. rewrite Hpr.
        destruct (advance lib (k (answer out o))
                    (tick (elapsed out) (world s))). reflexivity. }
      rewrite Hstep in *.
      edestruct IH as (Hrun & Hflight & Hcallers & Hlen); [|exact Hsettled|].
      { cbn [promises]. apply list_lookup_insert_eq.
        eapply lookup_lt_Some. exact Hpr. }
      cbn [world inFlightRequest callers promises] in *.
      rewrite length_insert in Hlen. repeat split; try assumption.
      cbn [run_promise]. rewrite advance_run.
      destruct (advance lib (k (answer out o)) (tick (elapsed out) (world s))).
      exact Hrun.
    + assert (step lib (complete p out) s = s) as Hstep.
      { unfold step. rewrite Hpr. reflexivity. }
      rewrite Hstep in *. apply (IH s (Settled r0) Hpr Hsettled).
Qed.

(** The turn of caller [c0]: the world, the promises and the other callers
    stay; a caller that waits for a settled promise gets its result, and its
    [finally] runs if it started the promise. *)
Lemma resume_step (lib : Lib) (c0 : nat) (s : Loop) :
  let s' := step lib (resume c0) s in
  world s' = world s ∧
  promises s' = promises s ∧
  length (callers s') = length (callers s) ∧
  (∀ c, c ≠ c0 → callers s' !! c = callers s !! c) ∧
  (∀ r, callers s !! c0 = Some (Returned r) →
        callers s' !! c0 = Some (Returned r)) ∧
  (∀ p r, promises s !! p = Some (Settled r) →
          callers s !! c0 = Some (Joined p) →
          callers s' !! c0 = Some (Returned r)) ∧
  (∀ p r, promises s !! p = Some (Settled r) →
          callers s !! c0 = Some (Started p) →
          callers s' !! c0 = Some (Returned r) ∧ inFlightRequest s' = None) ∧
  (inFlightRequest s = None → inFlightRequest s' = None).
Proof.
  intros s'. subst s'. unfold step.
  destruct (callers s !! c0) as [[q|q|r0]|] eqn:Hc0;
    [destruct (promises s !! q) as [[X o k|r']|] eqn:Hq ..| |];
    cbn [settle clear_inFlightRequest world promises callers inFlightRequest];
    rewrite ?length_insert;
    repeat split; try done;
    try (intros; rewrite list_lookup_insert_ne by done; reflexivity);
    try (intros; simplify_eq; apply list_lookup_insert_eq;
         eapply lookup_lt_Some; eassumption).
  intros r Hr. simplify_eq. exact Hc0.
Qed.

Lemma resumes_settle (lib : Lib) (p : pid) (r : Result TokenData)
    (order : list nat) (s : Loop) :
  promises s !! p = Some (Settled r) →
  let s' := exec lib (resume <$> order) s in
  world s' = world s ∧
  promises s' = promises s ∧
  (∀ c, (callers s !! c = Some (Started p) ∨ callers s !! c = Some (Joined p))
        ∧ c ∈ order
        ∨ callers s !! c = Some (Returned r) →
        callers s' !! c = Some (Returned r)) ∧
  (inFlightRequest s = None
   ∨ (∃ c, c ∈ order ∧ callers s !! c = Some (Started p)) →
   inFlightRequest s' = None).
Proof.
  revert s. induction order as [|c0 order IH]; intros s Hp.
  - simpl. repeat split.
    + intros c [[_ H%elem_of_nil]|H]; done.
    + intros [H|(c & H%elem_of_nil & _)]; done.
  - cbn [fmap list_fmap]. rewrite exec_cons.
    destruct (resume_step lib c0 s)
      as (Hw & Hpr & _ & Hother & Hreturned & Hjoined & Hstarted & Hnone).
    destruct (IH (step lib (resume c0) s)) as (Hw' & Hpr' & Hcallers & Hflight).
    { rewrite Hpr. exact Hp. }
    cbn zeta. rewrite Hw', Hpr'. repeat split; [done..| |].
    + intros c Hc. apply Hcallers.
      destruct (decide (c = c0)) as [->|Hne].
      * right. destruct Hc as [[[Hc|Hc] _]|Hc].
        -- apply (Hstarted p r Hp Hc).
        -- apply (Hjoined p r Hp Hc).
        -- apply (Hreturned r Hc).
      * rewrite (Hother c Hne).
        destruct Hc as [[Hc [->|Hin]%elem_of_cons]|Hc]; [done|auto..].
    + intros Hc. apply Hflight.
      destruct Hc as [Hc|(c & [->|Hin]%elem_of_cons & Hc)].
      * left. apply Hnone, Hc.
      * left. apply (Hstarted p r Hp Hc).
      * destruct (decide (c = c0)) as [->|Hne].
        -- left. apply (Hstarted p r Hp Hc).
        -- right. exists c. rewrite (Hother c Hne). done.
Qed.

(** [requestToken] posts at most one request, and exactly one when it
    obtains a record. *)
Lemma run_requestToken_requests (lib : Lib) (out : Outside) (w : World) :
  let result := run lib out requestToken w in
  (requests (trace (snd result)) ≤ S (requests (trace w)))%nat ∧
  ∀ d, fst result = Ok d →
       requests (trace (snd result)) = S (requests (trace w)).
Proof.
  intros result. subst result. rewrite run_requestToken_trace.
  unfold requestToken. simpl.
  destruct (jws_sign lib
              (assertion (clock w `div` 1000) (this w))) as [jwt|e]; simpl;
    rewrite requests_app.
  - change (requests [EvSign _; EvRequest _]) with 1%nat.
    split; [lia|]. intros _ _. lia.
  - change (requests [EvSign _]) with 0%nat.
    split; [lia|]. discriminate.
Qed.

Opaque requestToken getCredentials.

(** So does [getTokenAsyncInner], with exactly one when the token was
    expiring and the call obtains a record: loading credentials posts
    nothing. *)
Lemma run_getTokenAsyncInner_requests (lib : Lib) (out : Outside)
    (opts : GetTokenOptions) (w : World) :
  let result := run lib out (getTokenAsyncInner opts) w in
  (requests (trace (snd result)) ≤ S (requests (trace w)))%nat ∧
  (fst (run lib out isTokenExpiring w) = Ok true →
   ∀ d, fst result = Ok d →
        requests (trace (snd result)) = S (requests (trace w))).
Proof.
  intros result. subst result. unfold getTokenAsyncInner.
  rewrite run_bind, run_isTokenExpiring.
  set (expiring := if truthy (rawToken (this w)) && truthy (expiresAt (this w))
                   then _ else true).
  simpl.
  destruct (negb expiring && is_false (forceRefresh opts)) eqn:Hcached.
  { assert (expiring = false) as Hexp
      by (destruct expiring; simpl in Hcached; congruence).
    clearbody expiring. subst expiring.
    split; [|discriminate]. destruct (rawToken (this w)); simpl; lia. }
  destruct (negb (truthy (key (this w))) && negb (truthy (keyFile (this w)))).
  { simpl. split; [lia|]. discriminate. }
  rewrite run_bind.
  destruct (negb (truthy (key (this w))) && truthy (keyFile (this w))).
  - rewrite run_bind.
    pose proof (run_getCredentials_frame lib out
                  (the_string (keyFile (this w))) w) as (_ & _ & Hreq).
    destruct (run lib out (getCredentials (the_string (keyFile (this w)))) w)
      as [[creds|e] wc]; simpl in *.
    2: { rewrite Hreq. split; [lia|]. discriminate. }
    destruct (truthy (clientEmail creds)); simpl.
    + match goal with |- context [run lib out requestToken ?w1] =>
        pose proof (run_requestToken_requests lib out w1) as [Hle Heq]
      end.
      simpl in Hle, Heq. rewrite Hreq in *.
      split; [exact Hle|]. intros _. exact Heq.
    + destruct (truthy (js_or (clientEmail creds) (iss (this wc)))); simpl.
      * match goal with |- context [run lib out requestToken ?w1] =>
          pose proof (run_requestToken_requests lib out w1) as [Hle Heq]
        end.
        simpl in Hle, Heq. rewrite Hreq in *.
        split; [exact Hle|]. intros _. exact Heq.
      * rewrite Hreq. split; [lia|]. discriminate.
  - simpl. pose proof (run_requestToken_requests lib out w) as [Hle Heq].
    split; [exact Hle|]. intros _. exact Heq.
Qed.

Transparent requestToken getCredentials.

(** C9, as the code has it.  While [inFlightRequest] holds a promise, a
    [getToken] call that does not force a refresh returns that promise: it
    leaves the world alone, starts nothing, and gets the result of that
    promise.  With no promise in [inFlightRequest]: when [n + 1] such calls
    are made, the awaited operations of the one promise that is started
    complete until it has settled with [r], [m] more calls are made, and the
    callers take their turns in any order, then the world is the one that a
    single call of [getTokenAsyncInner] run to completion leaves behind,
    that call has result [r], and every one of the [n + 1 + m] callers has
    [r]; at most one request was posted, and exactly one when the token was
    expiring and [r] is a record. *)
Theorem single_flight (lib : Lib) :
  (∀ s p given,
     inFlightRequest s = Some (promise p) →
     given ≠ Some (Some true) →
     let s' := step lib (call given) s in
     world s' = world s ∧ promises s' = promises s ∧
     inFlightRequest s' = inFlightRequest s ∧
     callers s' = callers s ++ [Joined p])
  ∧ (∀ s c p r,
       callers s !! c = Some (Joined p) →
       promises s !! p = Some (Settled r) →
       callers (step lib (resume c) s) !! c = Some (Returned r))
  ∧ (∀ out s0 (n K m : nat) order r,
       inFlightRequest s0 = None →
       let first := length (callers s0) in
       let p := length (promises s0) in
       let s1 := exec lib (replicate (S n) (call None)
                             ++ replicate K (complete p out)) s0 in
       promises s1 !! p = Some (Settled r) →
       (∀ i, (i < S n + m)%nat → (first + i)%nat ∈ order) →
       let s := exec lib (replicate m (call None) ++ (resume <$> order)) s1 in
       run lib out (getTokenAsyncInner {| forceRefresh := Some false |})
         (world s0) = (r, world s) ∧
       length (promises s) = S p ∧
       inFlightRequest s = None ∧
       (∀ i, (i < S n + m)%nat →
             callers s !! (first + i)%nat = Some (Returned r)) ∧
       (requests (trace (world s)) ≤ S (requests (trace (world s0))))%nat ∧
       (fst (run lib out isTokenExpiring (world s0)) = Ok true →
        ∀ d, r = Ok d →
             requests (trace (world s)) = S (requests (trace (world s0))))).
Proof.
  split; [|split].
  - intros s p given Hp Hgiven s'. subst s'.
    rewrite (call_joins lib s p given Hp Hgiven). rewrite Hp. repeat split.
  - intros s c p r Hc Hp.
    destruct (resume_step lib c s) as (_ & _ & _ & _ & _ & Hjoined & _).
    apply (Hjoined p r Hp Hc).
  - intros out s0 n K m order r Hnone first p s1 Hsettled Horder s.
    set (opts := {| forceRefresh := Some false |}).
    destruct (advance lib (getTokenAsyncInner opts) (world s0))
      as [pr w1] eqn:Hadv.
    (* the first call starts a promise, the next ones join it *)
    assert (exec lib (replicate (S n) (call None)) s0 =
              {| world := w1; inFlightRequest := Some (promise p);
                 promises := promises s0 ++ [pr];
                 callers := (callers s0 ++ [Started p])
                              ++ replicate n (Joined p) |}) as Hcalls.
    { cbn [replicate]. rewrite exec_cons, (call_starts lib s0 None Hnone).
      change (getToken_opts None) with opts. rewrite Hadv.
      rewrite (calls_join lib n _ p) by reflexivity. reflexivity. }
    (* its awaited operations complete *)
    subst s1. rewrite exec_app, Hcalls in Hsettled.
    subst s. rewrite !exec_app, Hcalls.
    set (sc := {| world := w1; inFlightRequest := Some (promise p);
                  promises := promises s0 ++ [pr];
                  callers := (callers s0 ++ [Started p])
                               ++ replicate n (Joined p) |}) in *.
    set (s2 := exec lib (replicate K (complete p out)) sc) in *.
    destruct (completes_run lib out p K sc pr r)
      as (Hrun & Hflight & Hcallers & Hlen);
      [apply (list_lookup_middle _ [] _ p); reflexivity|exact Hsettled|].
    fold s2 in Hrun, Hflight, Hcallers, Hlen.
    cbn [sc world inFlightRequest promises callers] in Hrun, Hflight,
      Hcallers, Hlen.
    (* more calls join the settled promise, and the callers take turns *)
    rewrite (calls_join lib m s2 p Hflight).
    set (s3 := {| world := world s2; inFlightRequest := Some (promise p);
                  promises := promises s2;
                  callers := callers s2 ++ replicate m (Joined p) |}).
    destruct (resumes_settle lib p r order s3 Hsettled)
      as (Hw & Hpr & Hturns & Hclear).
    set (s4 := exec lib (resume <$> order) s3) in *.
    cbn [s3 world inFlightRequest promises callers] in Hw, Hpr, Hturns, Hclear.
    rewrite Hcallers in Hturns, Hclear.
    assert (run lib out (getTokenAsyncInner opts) (world s0) = (r, world s2))
      as Hone.
    { rewrite advance_run, Hadv. exact Hrun. }
    pose proof (run_getTokenAsyncInner_requests lib out opts (world s0))
      as [Hle Heq].
    rewrite Hone in Hle, Heq. cbn [fst snd] in Hle, Heq.
    rewrite Hw, Hpr, Hlen. repeat split.
    + exact Hone.
    + rewrite length_app. simpl. lia.
    + apply Hclear. right. exists first. split.
      * replace first with (first + 0)%nat by lia. apply Horder. lia.
      * rewrite <- !app_assoc. apply list_lookup_middle. reflexivity.
    + intros i Hi. apply Hturns. left. split; [|apply Horder, Hi].
      rewrite <- !app_assoc. rewrite lookup_app_r by (unfold first; lia).
      replace (first + i - length (callers s0))%nat with i
        by (unfold first; lia).
      destruct i as [|i]; [left; reflexivity|right].
      cbn [app lookup list_lookup]. rewrite <- replicate_add.
      apply lookup_replicate_2. lia.
    + exact Hle.
    + intros Hexpiring d ->. apply (Heq Hexpiring d). reflexivity.
Qed.

Lemma single_flight_witness :
  let out := sample_outside "" granted in
  let w := world_of sample_agent 1000 in
  let s := exec sample_lib
             (replicate 3 (call None) ++ [complete 0 out]
                ++ replicate 1 (call None) ++ (resume <$> [3; 0; 2; 1])%nat)
             (loop_of w) in
  requests (trace (world s)) = 1%nat ∧
  length (promises s) = 1%nat ∧
  ∀ i, (i < 4)%nat → callers s !! i = Some (Returned (Ok sample_token)).
Proof.
  intros out w.
  pose proof (proj2 (proj2 (single_flight sample_lib)) out (loop_of w)
                2%nat 1%nat 1%nat [3; 0; 2; 1]%nat (Ok sample_token)
                eq_refl eq_refl) as H.
  destruct H as (_ & Hlen & _ & Hcallers & _ & Hone).
  { intros i Hi.
    assert (i = 0 ∨ i = 1 ∨ i = 2 ∨ i = 3)%nat as [-> | [-> | [-> | ->]]]
      by lia; simpl; rewrite !elem_of_cons; lia. }
  split; [exact (Hone eq_refl sample_token eq_refl)|].
  split; [exact Hlen|exact Hcallers].
Defined.

(** C9 as the specification words it fails once a forced refresh has
    overlapped an exchange.  A call starts an exchange; a forced call starts
    a second one; the first is refused and its caller runs its [finally],
    which clears [inFlightRequest] although the second exchange is still on
    the wire.  A call with [forceRefresh] false then finds no promise to
    return: it posts a third request and waits for a promise of its own. *)
Lemma forced_refresh_breaks_single_flight :
  let out := sample_outside "" refused in
  let s4 := exec sample_lib
              [call None; call (Some (Some true)); complete 0 out; resume 0]%nat
              (loop_of (world_of sample_agent 1000)) in
  let s5 := step sample_lib (call (Some (Some false))) s4 in
  in_flight <$> promises s4 !! 1%nat = Some true ∧
  inFlightRequest s4 = None ∧
  requests (trace (world s5)) = S (requests (trace (world s4))) ∧
  callers s5 !! 2%nat = Some (Started 2).
Proof.
  repeat split.
Qed.

(** ** The cached record, through [getToken] *)

(** C3, as the code has it: a [getToken] call with [forceRefresh] false, on
    an agent that holds a record for which [isTokenExpiring()] is false
    and that has no promise in [inFlightRequest], resolves to the stored
    record, and the world is never other than it was: nothing is requested,
    signed or loaded, and the agent is unchanged.  The promise that the call
    starts is the one of [getTokenAsyncInner], which on its own returns the
    record without awaiting anything; [inFlightRequest] holds it until the
    call has returned. *)
Theorem cached_record_returned (lib : Lib) (out : Outside) (s : Loop)
    (given : option (option bool)) :
  getToken_opts given = {| forceRefresh := Some false |} →
  fst (run lib out isTokenExpiring (world s)) = Ok false →
  inFlightRequest s = None →
  let c := length (callers s) in
  let s1 := step lib (call given) s in
  let s2 := step lib (resume c) s1 in
  ∃ token,
    rawToken (this (world s)) = Some token ∧
    callers s2 !! c = Some (Returned (Ok token)) ∧
    world s1 = world s ∧ world s2 = world s ∧
    inFlightRequest s2 = None ∧
    run lib out (getTokenAsyncInner {| forceRefresh := Some false |}) (world s)
    = (Ok token, world s).
Proof.
  intros Hopts Hfresh Hnone c s1 s2.
  destruct (not_expiring_has_record lib out (world s) Hfresh)
    as [token Htoken].
  pose proof (run_getTokenAsyncInner_cached lib out (world s) token
                Hfresh Htoken) as Hrun.
  exists token.
  assert (advance lib (getTokenAsyncInner {| forceRefresh := Some false |})
            (world s) = (Settled (Ok token), world s)) as Hadv.
  { rewrite advance_run in Hrun.
    destruct (advance lib (getTokenAsyncInner {| forceRefresh := Some false |})
                (world s)) as [[X o k|r] w'] eqn:Hadv.
    - exfalso. revert Hadv. unfold getTokenAsyncInner.
      rewrite advance_bind, advance_isTokenExpiring.
      rewrite run_isTokenExpiring in Hfresh. simpl in Hfresh.
      injection Hfresh as ->. simpl. rewrite Htoken. discriminate.
    - simpl in Hrun. congruence. }
  assert (s1 = {| world := world s;
                  inFlightRequest := Some (promise (length (promises s)));
                  promises := promises s ++ [Settled (Ok token)];
                  callers := callers s ++ [Started (length (promises s))] |})
    as Hs1.
  { subst s1. rewrite (call_starts lib s given Hnone), Hopts, Hadv.
    reflexivity. }
  destruct (resume_step lib c s1) as (Hw & _ & _ & _ & _ & _ & Hstarted & _).
  destruct (Hstarted (length (promises s)) (Ok token)) as [Hreturned Hclear].
  { rewrite Hs1. apply (list_lookup_middle _ [] _ _). reflexivity. }
  { rewrite Hs1. apply (list_lookup_middle _ [] _ c). reflexivity. }
  fold s2 in Hw, Hreturned, Hclear.
  assert (world s1 = world s) as Hw1 by (rewrite Hs1; reflexivity).
  repeat split; try assumption. congruence.
Qed.

Lemma cached_record_returned_witness :
  let s := loop_of (world_of (holding 3600000 sample_agent) 1000) in
  let s1 := step sample_lib (call None) s in
  let s2 := step sample_lib (resume 0%nat) s1 in
  ∃ token,
    rawToken (this (world s)) = Some token ∧
    callers s2 !! 0%nat = Some (Returned (Ok token)) ∧
    world s1 = world s ∧ world s2 = world s ∧
    inFlightRequest s2 = None ∧
    run sample_lib (sample_outside "" refused)
      (getTokenAsyncInner {| forceRefresh := Some false |}) (world s)
    = (Ok token, world s).
Proof.
  apply (cached_record_returned sample_lib (sample_outside "" refused)
           (loop_of (world_of (holding 3600000 sample_agent) 1000)) None);
    reflexivity.
Defined.

(** C3 as the specification words it fails while a promise is in flight.
    The agent holds a record that is not expiring; a forced refresh is under
    way; a call with [forceRefresh] false returns the promise of that
    refresh, and resolves to the record that the refresh obtains, not to the
    one that was cached when it was made. *)
Lemma joined_call_gets_the_refreshed_record :
  let out := sample_outside "" renewed in
  let s1 := step sample_lib (call (Some (Some true)))
              (loop_of (world_of (holding 3600000 sample_agent) 1000)) in
  let s4 := exec sample_lib
              [call (Some (Some false)); complete 0 out; resume 1]%nat s1 in
  rawToken (this (world s1)) = Some sample_token ∧
  fst (run sample_lib out isTokenExpiring (world s1)) = Ok false ∧
  callers s4 !! 1%nat = Some (Returned (Ok fresh_token)) ∧
  fresh_token ≠ sample_token.
Proof.
  repeat split. discriminate.
Qed.

(** ** The examples of the specification *)

(** An agent that has not exchanged anything yet has expired. *)
Example fresh_agent_has_expired :
  let w := world_of sample_agent 1000 in
  run sample_lib (sample_outside "" granted) hasExpired w = (Ok true, w) ∧
  run sample_lib (sample_outside "" granted) isTokenExpiring w = (Ok true, w).
Proof. split; reflexivity. Qed.

(** A key file with [private_key] and [client_email], and a grant of
    [{access_token: "abc", expires_in: 3600, token_type: "Bearer"}] issued
    at second [T = 1700000000]: [expiresAt] is [(T + 3600) * 1000], the
    access token is ["abc"], and the issuer is the client email. *)
Example key_file_exchange :
  let w := world_of (keyFile_agent "key.json" None) 1700000000123 in
  let result :=
    run sample_lib (sample_outside "{...}" granted)
      (getTokenAsyncInner {| forceRefresh := Some false |}) w in
  fst result = Ok sample_token ∧
  expiresAt (this (snd result)) = Some ((1700000000 + 3600) * 1000) ∧
  accessToken (this (snd result)) = Some "abc" ∧
  iss (this (snd result)) = Some "svc@x.iam" ∧
  key (this (snd result)) = Some "-----BEGIN".
Proof. repeat split. Qed.

(** A forced refresh posts a request although a valid record is cached. *)
Example forced_refresh_exchanges :
  let w := world_of (holding 3600000 sample_agent) 1000 in
  let result :=
    run sample_lib (sample_outside "" renewed)
      (getTokenAsyncInner {| forceRefresh := Some true |}) w in
  fst (run sample_lib (sample_outside "" renewed) isTokenExpiring w)
  = Ok false ∧
  fst result = Ok fresh_token ∧ requests (trace (snd result)) = 1%nat.
Proof. repeat split. Qed.

(** A scope given as a list is joined with single spaces. *)
Example scope_is_joined : scope sample_agent = Some "a b".
Proof. reflexivity. Qed.

(** A key file that holds [null] fails when its properties are read, and a
    key file without an issuer needs a configured one. *)
Example key_file_failures :
  fst (run sample_lib (sample_outside "null" granted)
         (getCredentials "key.json") (world_of blank 0)) = Err TypeError ∧
  (∃ e, fst (run sample_lib (sample_outside "-----BEGIN" granted)
               (getTokenAsyncInner {| forceRefresh := Some false |})
               (world_of (keyFile_agent "key.pem" None) 0)) = Err e
        ∧ message e = "email is required."
        ∧ code e = Some MISSING_CREDENTIALS).
Proof. split; [reflexivity|]. eexists. repeat split. Qed.

(** * Further properties *)

(** ** The threshold *)

(** X1: [isTokenExpiring()] is [hasExpired()] asked
    [eagerRefreshThresholdMillis] milliseconds later, for every agent.  So
    with a threshold that is not negative, a token that has expired is
    expiring; and as time passes, a token that has expired stays expired and
    one that is expiring stays expiring. *)
Theorem eager_refresh_is_shifted_expiry (lib : Lib) (out : Outside)
    (w : World) :
  let threshold := js_nullish (eagerRefreshThresholdMillis (this w)) 0 in
  fst (run lib out isTokenExpiring w)
  = fst (run lib out hasExpired (tick threshold w))
  ∧ (0 ≤ threshold →
     fst (run lib out hasExpired w) = Ok true →
     fst (run lib out isTokenExpiring w) = Ok true)
  ∧ (∀ dt, 0 ≤ dt →
       (fst (run lib out hasExpired w) = Ok true →
        fst (run lib out hasExpired (tick dt w)) = Ok true)
       ∧ (fst (run lib out isTokenExpiring w) = Ok true →
          fst (run lib out isTokenExpiring (tick dt w)) = Ok true)).
Proof.
  intros threshold. subst threshold.
  assert (∀ dt, run lib out hasExpired (tick dt w) =
                (Ok (if truthy (rawToken (this w))
                        && truthy (expiresAt (this w))
                     then js_ge (clock w + dt) (expiresAt (this w))
                     else true), tick dt w)) as Hhas
    by (intros dt; apply run_hasExpired).
  assert (∀ dt, run lib out isTokenExpiring (tick dt w) =
                (Ok (if truthy (rawToken (this w))
                        && truthy (expiresAt (this w))
                     then js_le (expiresAt (this w))
                            (clock w + dt
                             + js_nullish
                                 (eagerRefreshThresholdMillis (this w)) 0)
                     else true), tick dt w)) as Hexp
    by (intros dt; apply run_isTokenExpiring).
  rewrite (run_isTokenExpiring lib out w), (run_hasExpired lib out w).
  setoid_rewrite Hhas. setoid_rewrite Hexp. cbn [fst].
  destruct (truthy (rawToken (this w)) && truthy (expiresAt (this w)));
    [|repeat split; reflexivity].
  destruct (expiresAt (this w)) as [E|]; cbn [js_le js_ge].
  - split; [|split].
    + f_equal. apply eq_true_iff_eq.
      rewrite Z.leb_le, Z.geb_le. reflexivity.
    + intros Hth H. injection H as H. f_equal.
      apply Z.geb_le in H. apply Z.leb_le. lia.
    + intros dt Hdt.
      split; intros H; injection H as H; f_equal.
      * apply Z.geb_le in H. apply Z.geb_le. lia.
      * apply Z.leb_le in H. apply Z.leb_le. lia.
  - split; [reflexivity|]. split; [discriminate|].
    intros dt _. split; discriminate.
Qed.

Lemma eager_refresh_is_shifted_expiry_witness :
  let w := world_of (holding 5000 sample_agent) 5200 in
  fst (run sample_lib (sample_outside "" granted) isTokenExpiring w) = Ok true
  ∧ fst (run sample_lib (sample_outside "" granted) isTokenExpiring
           (tick 60000 w)) = Ok true.
Proof.
  intros w.
  pose proof (eager_refresh_is_shifted_expiry sample_lib
                (sample_outside "" granted) w) as (_ & Hexp & Hlater).
  assert (fst (run sample_lib (sample_outside "" granted) isTokenExpiring w)
          = Ok true) as H.
  { apply Hexp; [vm_compute; discriminate | reflexivity]. }
  split; [exact H|].
  apply (proj2 (Hlater 60000 ltac:(lia))). exact H.
Defined.

(** ** Failures of the exchange *)

(** X2: when [jws.sign] throws, [requestToken] fails with that very error
    before anything is sent: no request is posted, no time passes, and the
    agent is what it was, so that a record held before is still held (the
    [catch] that clears it guards the request only). *)
Theorem sign_failure_keeps_the_agent (lib : Lib) (out : Outside) (w : World)
    (e : Error) :
  jws_sign lib (assertion (clock w `div` 1000) (this w)) = Err e →
  let result := run lib out requestToken w in
  fst result = Err e ∧
  this (snd result) = this w ∧
  clock (snd result) = clock w ∧
  requests (trace (snd result)) = requests (trace w) ∧
  trace (snd result)
  = trace w ++ [EvSign (assertion (clock w `div` 1000) (this w))].
Proof.
  intros Hsign result. subst result.
  unfold requestToken. simpl. rewrite Hsign. simpl.
  repeat split. rewrite requests_app, requests_singleton. simpl. lia.
Qed.

Lemma sign_failure_keeps_the_agent_witness :
  let e := new_Error "secretOrPrivateKey must have a value" in
  let w := world_of (holding 3600000 sample_agent) 4000000 in
  let result :=
    run (lib_signing (Err e)) (sample_outside "" granted) requestToken w in
  fst result = Err e ∧ rawToken (this (snd result)) = Some sample_token ∧
  requests (trace (snd result)) = 0%nat.
Proof.
  intros e w result.
  destruct (sign_failure_keeps_the_agent (lib_signing (Err e))
              (sample_outside "" granted) w e eq_refl)
    as (H1 & H2 & _ & H3 & _).
  split; [exact H1|]. split; [|exact H3].
  exact (f_equal rawToken H2).
Defined.

Lemma append_empty_r (s : string) : s +:+ "" = s.
Proof.
  induction s as [|c s IH]; [reflexivity|].
  change (String c (s +:+ "") = String c s). f_equal. exact IH.
Qed.

(** X3: the error of a failed request is thrown again with its [code] and
    [response]; its message becomes [error: error_description] of the
    response body when the body has both, [error] alone when the description
    is missing or empty, and stays what it was when there is no response, no
    body, or no [error] in it. *)
Theorem request_error_message (lib : Lib) (out : Outside) (w : World)
    (jwt : string) (e : Error) :
  jws_sign lib (assertion (clock w `div` 1000) (this w)) = Ok jwt →
  gaxios_request out (token_request jwt) = Err e →
  ∃ e',
    fst (run lib out requestToken w) = Err e' ∧
    code e' = code e ∧ response e' = response e ∧
    (∀ body err,
       response e = Some {| response_data := Some body |} →
       error body = Some err → err ≠ "" →
       (∀ d, error_description body = Some d → d ≠ "" →
             message e' = err +:+ ": " +:+ d)
       ∧ (error_description body = None ∨ error_description body = Some "" →
          message e' = err))
    ∧ (response e = None
       ∨ response e = Some {| response_data := None |}
       ∨ (∃ body, response e = Some {| response_data := Some body |}
                  ∧ (error body = None ∨ error body = Some "")) →
       e' = e).
Proof.
  intros Hsign Hreq. exists (rewrite_error e).
  rewrite (run_requestToken_refused lib out w jwt e Hsign Hreq).
  cbn [fst]. unfold rewrite_error.
  assert (∀ s : string, s ≠ "" → truthy s = true) as Htruthy.
  { intros s Hs. apply negb_true_iff, String.eqb_neq, Hs. }
  split; [reflexivity|]. split; [|split; [|split]].
  - cbv zeta. destruct (error _) as [err|]; [|reflexivity].
    destruct (truthy err); reflexivity.
  - cbv zeta. destruct (error _) as [err|]; [|reflexivity].
    destruct (truthy err); reflexivity.
  - intros body err -> Herr Hne. cbn. split.
    + intros d Hdesc Hd.
      rewrite Herr, (Htruthy err Hne), Hdesc, (Htruthy d Hd). reflexivity.
    + intros Hdesc. rewrite Herr, (Htruthy err Hne).
      destruct Hdesc as [-> | ->]; cbn; apply append_empty_r.
  - intros [-> | [-> | (body & -> & Hbody)]]; cbn; [reflexivity..|].
    destruct Hbody as [-> | ->]; reflexivity.
Qed.

Lemma request_error_message_witness :
  ∃ e',
    fst (run sample_lib (sample_outside "" refused) requestToken
           (world_of sample_agent 1000)) = Err e' ∧
    message e' = "invalid_grant: Invalid JWT".
Proof.
  destruct (request_error_message sample_lib (sample_outside "" refused)
              (world_of sample_agent 1000) "signed"
              {| message := "Request failed with status code 400";
                 code := None;
                 response :=
                   Some {| response_data :=
                             Some {| error := Some "invalid_grant";
                                     error_description :=
                                       Some "Invalid JWT" |} |} |}
              eq_refl eq_refl)
    as (e' & Hrun & _ & _ & Hmsg & _).
  exists e'. split; [exact Hrun|].
  apply (proj1 (Hmsg _ "invalid_grant" eq_refl eq_refl ltac:(discriminate))
           "Invalid JWT" eq_refl).
  discriminate.
Defined.



(** ** The getters *)

(** X5: after an exchange, the four getters read the record that it
    obtained, property by property; after one whose request failed, all four
    are undefined. *)
Theorem getters_after_exchange (lib : Lib) (out : Outside) (w : World)
    (jwt : string) :
  jws_sign lib (assertion (clock w `div` 1000) (this w)) = Ok jwt →
  let g' := this (snd (run lib out requestToken w)) in
  (∀ d, gaxios_request out (token_request jwt)
        = Ok {| GaxiosResponse.data := Some d |} →
        accessToken g' = access_token d ∧ idToken g' = id_token d ∧
        tokenType g' = token_type d ∧ refreshToken g' = refresh_token d)
  ∧ (∀ e, gaxios_request out (token_request jwt) = Err e →
          accessToken g' = None ∧ idToken g' = None ∧
          tokenType g' = None ∧ refreshToken g' = None).
Proof.
  intros Hsign g'. subst g'. split.
  - intros d Hreq.
    rewrite (run_requestToken_granted lib out w jwt d Hsign Hreq).
    repeat split.
  - intros e Hreq.
    rewrite (run_requestToken_refused lib out w jwt e Hsign Hreq).
    repeat split.
Qed.

Lemma getters_after_exchange_witness :
  let g' := this (snd (run sample_lib (sample_outside "" granted) requestToken
                         (world_of sample_agent 1000))) in
  accessToken g' = Some "abc" ∧ idToken g' = None ∧
  tokenType g' = Some "Bearer" ∧ refreshToken g' = None.
Proof.
  intros g'.
  apply (proj1 (getters_after_exchange sample_lib (sample_outside "" granted)
                  (world_of sample_agent 1000) "signed" eq_refl)
           sample_token eq_refl).
Defined.

(** ** The paths of [getTokenAsyncInner] *)

Lemma loads_app (tr tr' : list Event) :
  loads (tr ++ tr') = (loads tr + loads tr')%nat.
Proof. unfold loads. rewrite filter_app, length_app. reflexivity. Qed.

Lemma loads_singleton (ev : Event) :
  loads [ev] = if is_load ev then 1%nat else 0%nat.
Proof. destruct ev; reflexivity. Qed.

Opaque requestToken getCredentials.

(** [getTokenAsyncInner], path by path. *)
Lemma run_getTokenAsyncInner (lib : Lib) (out : Outside)
    (opts : GetTokenOptions) (w : World) :
  run lib out (getTokenAsyncInner opts) w =
    let g := this w in
    let expiring :=
      if truthy (rawToken g) && truthy (expiresAt g)
      then js_le (expiresAt g)
             (clock w + js_nullish (eagerRefreshThresholdMillis g) 0)
      else true in
    if negb expiring && is_false (forceRefresh opts) then
      match rawToken g with
      | Some token => (Ok token, w)
      | None => (Err TypeError, w)
      end
    else if negb (truthy (key g)) && negb (truthy (keyFile g)) then
      (Err (new_Error "No key or keyFile set."), w)
    else if negb (truthy (key g)) && truthy (keyFile g) then
      match run lib out (getCredentials (the_string (keyFile g))) w with
      | (Ok creds, wc) =>
          let w1 := with_credentials creds wc in
          if negb (truthy (clientEmail creds)) && negb (truthy (iss (this w1)))
          then (Err (new_ErrorWithCode "email is required."
                       MISSING_CREDENTIALS), w1)
          else run lib out requestToken w1
      | (Err e, wc) => (Err e, wc)
      end
    else run lib out requestToken w.
Proof.
  unfold getTokenAsyncInner. rewrite run_bind, run_isTokenExpiring.
  cbv zeta.
  set (expiring := if truthy (rawToken (this w)) && truthy (expiresAt (this w))
                   then _ else true).
  simpl.
  destruct (negb expiring && is_false (forceRefresh opts)).
  { destruct (rawToken (this w)); reflexivity. }
  destruct (negb (truthy (key (this w))) && negb (truthy (keyFile (this w)))).
  { reflexivity. }
  rewrite run_bind.
  destruct (negb (truthy (key (this w))) && truthy (keyFile (this w)));
    [|reflexivity].
  rewrite run_bind.
  destruct (run lib out (getCredentials (the_string (keyFile (this w)))) w)
    as [[creds|e] wc]; [|reflexivity].
  simpl. unfold with_credentials.
  destruct (truthy (clientEmail creds)); simpl; [reflexivity|].
  destruct (truthy (js_or (clientEmail creds) (iss (this wc)))); reflexivity.
Qed.

Transparent requestToken getCredentials.

(** The exchange writes [rawToken], [expiresAt] and [tokenExpires], and
    nothing else; it loads nothing. *)
Lemma run_requestToken_frame (lib : Lib) (out : Outside) (w : World) :
  let w' := snd (run lib out requestToken w) in
  key (this w') = key (this w) ∧ keyFile (this w') = keyFile (this w) ∧
  iss (this w') = iss (this w) ∧ sub (this w') = sub (this w) ∧
  scope (this w') = scope (this w) ∧ email (this w') = email (this w) ∧
  additionalClaims (this w') = additionalClaims (this w) ∧
  eagerRefreshThresholdMillis (this w')
  = eagerRefreshThresholdMillis (this w) ∧
  getPem_loaded w' = getPem_loaded w ∧
  loads (trace w') = loads (trace w).
Proof.
  intros w'. subst w'. unfold requestToken. simpl.
  destruct (jws_sign lib (assertion (clock w `div` 1000) (this w)))
    as [jwt|e]; simpl.
  - destruct (gaxios_request out (token_request jwt)) as [[[d|]]|e]; simpl;
      rewrite !loads_app, !loads_singleton; simpl; repeat split; lia.
  - rewrite !loads_app, !loads_singleton; simpl; repeat split; lia.
Qed.

Lemma truthy_string (s : string) : truthy s = true ↔ s ≠ "".
Proof.
  unfold truthy, string_truthy. rewrite negb_true_iff. apply String.eqb_neq.
Qed.

(** A refresh is due: the stored record is not returned. *)
Lemma refresh_due (lib : Lib) (out : Outside) (opts : GetTokenOptions)
    (w : World) :
  fst (run lib out isTokenExpiring w) = Ok true
  ∨ forceRefresh opts ≠ Some false →
  negb (if truthy (rawToken (this w)) && truthy (expiresAt (this w))
        then js_le (expiresAt (this w))
               (clock w
                + js_nullish (eagerRefreshThresholdMillis (this w)) 0)
        else true)
  && is_false (forceRefresh opts) = false.
Proof.
  rewrite run_isTokenExpiring. cbn [fst]. intros [Hdue|Hdue].
  - injection Hdue as ->. reflexivity.
  - destruct (forceRefresh opts) as [[]|]; rewrite ?andb_false_r; congruence.
Qed.

(** X6: a call that has to refresh on an agent with neither a key nor a key
    file (an empty string counts as none) fails with the error
    [No key or keyFile set.] and touches nothing. *)
Theorem no_key_or_keyFile (lib : Lib) (out : Outside)
    (opts : GetTokenOptions) (w : World) :
  truthy (key (this w)) = false →
  truthy (keyFile (this w)) = false →
  fst (run lib out isTokenExpiring w) = Ok true
  ∨ forceRefresh opts ≠ Some false →
  run lib out (getTokenAsyncInner opts) w
  = (Err (new_Error "No key or keyFile set."), w).
Proof.
  intros Hkey HkeyFile Hdue.
  rewrite run_getTokenAsyncInner. cbv zeta.
  rewrite (refresh_due lib out opts w Hdue), Hkey, HkeyFile. reflexivity.
Qed.

Lemma no_key_or_keyFile_witness :
  let w := world_of (new_GoogleToken None) 1000 in
  run sample_lib (sample_outside "" granted)
    (getTokenAsyncInner {| forceRefresh := Some false |}) w
  = (Err (new_Error "No key or keyFile set."), w).
Proof.
  intros w.
  apply (no_key_or_keyFile sample_lib (sample_outside "" granted)
           {| forceRefresh := Some false |} w);
    [reflexivity | reflexivity | left; reflexivity].
Defined.

(** What [getCredentials] does with a key file that it can read. *)
Lemma run_getCredentials_json (lib : Lib) (out : Outside) (w : World)
    (path content pk ce : string) :
  path_extname lib path = ".json" →
  fs_readFile out path = Ok content →
  JSON_parse lib content = Ok (JsonObject (Some pk) (Some ce)) →
  pk ≠ "" → ce ≠ "" →
  run lib out (getCredentials path) w =
    (Ok {| privateKey := pk; clientEmail := Some ce |},
     tick (elapsed out) (log (EvReadFile path) w)).
Proof.
  intros Hext Hread Hparse Hpk%truthy_string Hce%truthy_string.
  unfold getCredentials. simpl. rewrite Hext. simpl. rewrite Hread. simpl.
  rewrite Hparse. simpl.
  change (truthy (Some pk)) with (truthy pk).
  change (truthy (Some ce)) with (truthy ce).
  rewrite Hpk, Hce. reflexivity.
Qed.

Lemma run_getCredentials_pem (lib : Lib) (out : Outside) (w : World)
    (path : string) (r : Result string) :
  path_extname lib path ∈ [".pem"; ".crt"; ".der"] →
  fs_readFile out path = r →
  run lib out (getCredentials path) w =
    (match r with
     | Ok content => Ok {| privateKey := content; clientEmail := None |}
     | Err e => Err e
     end, tick (elapsed out) (log (EvReadFile path) w)).
Proof.
  intros Hext <-. unfold getCredentials. simpl.
  repeat apply elem_of_cons in Hext as [-> | Hext];
    [..|apply elem_of_nil in Hext; done]; simpl;
    destruct (fs_readFile out path); reflexivity.
Qed.

Opaque requestToken getCredentials.


Transparent requestToken getCredentials.


Opaque requestToken getCredentials.

(** X8: whatever path a call takes and however it ends, it leaves [sub],
    [scope], [additionalClaims], [eagerRefreshThresholdMillis], [keyFile]
    and [email] as they were. *)
Theorem getToken_keeps_the_configuration (lib : Lib) (out : Outside)
    (opts : GetTokenOptions) (w : World) :
  let g := this w in
  let g' := this (snd (run lib out (getTokenAsyncInner opts) w)) in
  sub g' = sub g ∧ scope g' = scope g ∧
  additionalClaims g' = additionalClaims g ∧
  eagerRefreshThresholdMillis g' = eagerRefreshThresholdMillis g ∧
  keyFile g' = keyFile g ∧ email g' = email g.
Proof.
  intros g g'. subst g g'. rewrite run_getTokenAsyncInner. cbv zeta.
  destruct (negb _ && is_false (forceRefresh opts)).
  { destruct (rawToken (this w)); repeat split. }
  destruct (negb (truthy (key (this w))) && negb (truthy (keyFile (this w)))).
  { repeat split. }
  destruct (negb (truthy (key (this w))) && truthy (keyFile (this w))).
  - pose proof (run_getCredentials_frame lib out
                  (the_string (keyFile (this w))) w) as (Hthis & _).
    destruct (run lib out (getCredentials (the_string (keyFile (this w)))) w)
      as [[creds|e] wc]; cbn [snd] in *; [|rewrite Hthis; repeat split].
    destruct (negb (truthy (clientEmail creds)) && _).
    + cbn. rewrite Hthis. repeat split.
    + destruct (run_requestToken_frame lib out (with_credentials creds wc))
        as (_ & H1 & _ & H2 & H3 & H4 & H5 & H6 & _).
      rewrite H1, H2, H3, H4, H5, H6. cbn. rewrite Hthis. repeat split.
  - destruct (run_requestToken_frame lib out w)
      as (_ & H1 & _ & H2 & H3 & H4 & H5 & H6 & _).
    repeat split; assumption.
Qed.

Transparent requestToken getCredentials.

Opaque requestToken getCredentials.

(** With a key, a call that has to refresh is the exchange and nothing
    else. *)
Lemma run_getTokenAsyncInner_key (lib : Lib) (out : Outside)
    (opts : GetTokenOptions) (w : World) :
  truthy (key (this w)) = true →
  fst (run lib out isTokenExpiring w) = Ok true
  ∨ forceRefresh opts ≠ Some false →
  run lib out (getTokenAsyncInner opts) w = run lib out requestToken w.
Proof.
  intros Hkey Hdue. rewrite run_getTokenAsyncInner. cbv zeta.
  rewrite (refresh_due lib out opts w Hdue), Hkey. reflexivity.
Qed.

(** X9: a JSON key file brings its own issuer.  On an agent without a key,
    a call that has to refresh reads the file once and then runs the
    exchange with [private_key] as the key and [client_email] as the issuer,
    whatever issuer the agent was configured with. *)
Theorem json_key_file_sets_key_and_issuer (lib : Lib) (out : Outside)
    (opts : GetTokenOptions) (w : World) (path content pk ce : string) :
  truthy (key (this w)) = false →
  keyFile (this w) = Some path → path ≠ "" →
  fst (run lib out isTokenExpiring w) = Ok true
  ∨ forceRefresh opts ≠ Some false →
  path_extname lib path = ".json" →
  fs_readFile out path = Ok content →
  JSON_parse lib content = Ok (JsonObject (Some pk) (Some ce)) →
  pk ≠ "" → ce ≠ "" →
  run lib out (getTokenAsyncInner opts) w =
    run lib out requestToken
      {| this := set_iss (Some ce) (set_key (Some pk) (this w));
         clock := clock w + elapsed out;
         getPem_loaded := getPem_loaded w;
         trace := trace w ++ [EvReadFile path] |}.
Proof.
  intros Hkey HkeyFile Hpath%truthy_string Hdue Hext Hread Hparse Hpk Hce.
  rewrite run_getTokenAsyncInner. cbv zeta.
  rewrite (refresh_due lib out opts w Hdue), Hkey, HkeyFile.
  change (truthy (Some path)) with (truthy path). rewrite Hpath.
  change (the_string (Some path)) with path.
  cbn [negb andb].
  rewrite (run_getCredentials_json lib out w path content pk ce)
    by assumption.
  apply truthy_string in Hce.
  unfold with_credentials, js_or. cbn [clientEmail privateKey].
  change (truthy (Some ce)) with (truthy ce). rewrite Hce.
  reflexivity.
Qed.

Transparent requestToken getCredentials.

Lemma json_key_file_sets_key_and_issuer_witness :
  let out := sample_outside "{...}" granted in
  let result :=
    run sample_lib out (getTokenAsyncInner {| forceRefresh := Some false |})
      (world_of (keyFile_agent "key.json" (Some "other@x.iam")) 1000) in
  fst result = Ok sample_token ∧
  iss (this (snd result)) = Some "svc@x.iam" ∧
  key (this (snd result)) = Some "-----BEGIN".
Proof.
  intros out result. subst result.
  rewrite (json_key_file_sets_key_and_issuer sample_lib out
             {| forceRefresh := Some false |}
             (world_of (keyFile_agent "key.json" (Some "other@x.iam")) 1000)
             "key.json" "{...}" "-----BEGIN" "svc@x.iam");
    [repeat split | reflexivity | reflexivity | discriminate
    | left; reflexivity | reflexivity | reflexivity | reflexivity
    | discriminate | discriminate].
Defined.

Opaque requestToken getCredentials.

(** X10: the issuer is checked after the key has been stored.  On an agent
    with a [.pem], [.crt] or [.der] key file, no key, no issuer and no
    record, a call fails with [email is required.] without signing
    anything, but the content of the file is the key from then on; so the
    next call does not come by the check again: it is the exchange. *)
Theorem issuer_check_is_not_repeated (lib : Lib) (out out' : Outside)
    (opts opts' : GetTokenOptions) (w : World) (path content : string) :
  truthy (key (this w)) = false →
  keyFile (this w) = Some path → path ≠ "" →
  truthy (iss (this w)) = false →
  rawToken (this w) = None →
  path_extname lib path ∈ [".pem"; ".crt"; ".der"] →
  fs_readFile out path = Ok content → content ≠ "" →
  let result := run lib out (getTokenAsyncInner opts) w in
  fst result
  = Err (new_ErrorWithCode "email is required." MISSING_CREDENTIALS) ∧
  key (this (snd result)) = Some content ∧
  signs (trace (snd result)) = signs (trace w) ∧
  run lib out' (getTokenAsyncInner opts') (snd result)
  = run lib out' requestToken (snd result).
Proof.
  intros Hkey HkeyFile Hpath%truthy_string Hiss Hraw Hext Hread
    Hcontent%truthy_string result.
  assert (result =
            (Err (new_ErrorWithCode "email is required." MISSING_CREDENTIALS),
             with_credentials {| privateKey := content; clientEmail := None |}
               (tick (elapsed out) (log (EvReadFile path) w)))) as ->.
  { subst result. rewrite run_getTokenAsyncInner. cbv zeta.
    rewrite Hraw, Hkey, HkeyFile.
    change (truthy (Some path)) with (truthy path). rewrite Hpath.
    change (the_string (Some path)) with path.
  cbn [truthy option_truthy negb andb].
    rewrite (run_getCredentials_pem lib out w path (Ok content) Hext Hread).
    unfold with_credentials, js_or.
    cbn [clientEmail privateKey truthy option_truthy negb andb this tick log
         set_world_this set_iss set_key iss].
    fold (@truthy (option string) _ (iss (this w))). rewrite Hiss.
    reflexivity. }
  cbn [fst snd]. split; [reflexivity|]. split; [reflexivity|]. split.
  - unfold with_credentials. cbn [trace set_world_this tick log].
    rewrite signs_app, signs_singleton. simpl. lia.
  - apply run_getTokenAsyncInner_key.
    + cbn. exact Hcontent.
    + left. rewrite run_isTokenExpiring. cbn. rewrite Hraw. reflexivity.
Qed.

Transparent requestToken getCredentials.

Lemma issuer_check_is_not_repeated_witness :
  let out := sample_outside "-----BEGIN" granted in
  let opts := {| forceRefresh := Some false |} in
  let first := run sample_lib out (getTokenAsyncInner opts)
                 (world_of (keyFile_agent "key.pem" None) 1000) in
  let second := run sample_lib out (getTokenAsyncInner opts) (snd first) in
  fst first
  = Err (new_ErrorWithCode "email is required." MISSING_CREDENTIALS) ∧
  second = run sample_lib out requestToken (snd first) ∧
  fst second = Ok sample_token ∧ iss (this (snd second)) = None.
Proof.
  intros out opts first second.
  destruct (issuer_check_is_not_repeated sample_lib out out opts opts
              (world_of (keyFile_agent "key.pem" None) 1000)
              "key.pem" "-----BEGIN")
    as (H1 & _ & _ & H2);
    [reflexivity | reflexivity | discriminate | reflexivity | reflexivity
    | apply elem_of_cons; left; reflexivity | reflexivity | discriminate |].
  split; [exact H1|]. split; [exact H2|]. split; reflexivity.
Defined.

Lemma run_getCredentials_unreadable (lib : Lib) (out : Outside) (w : World)
    (path : string) (e : Error) :
  path_extname lib path ∈ [".json"; ".pem"; ".crt"; ".der"] →
  fs_readFile out path = Err e →
  run lib out (getCredentials path) w =
    (Err e, tick (elapsed out) (log (EvReadFile path) w)).
Proof.
  intros Hext Hread. apply elem_of_cons in Hext as [Hext|Hext].
  - unfold getCredentials. simpl. rewrite Hext. simpl. rewrite Hread.
    reflexivity.
  - apply (run_getCredentials_pem lib out w path (Err e) Hext Hread).
Qed.

Opaque requestToken getCredentials.

(** X11: a key file that cannot be read.  On an agent without a key, a call
    that has to refresh and whose key file has extension [.json], [.pem],
    [.crt] or [.der] fails with the error of the read, whatever it is, and
    leaves the agent alone: nothing is signed and nothing is requested.
    Where there is no file system, that error is
    [use key rather than keyFile.] with code [MISSING_CREDENTIALS]. *)
Theorem unreadable_key_file (lib : Lib) (out : Outside)
    (opts : GetTokenOptions) (w : World) (path : string) (e : Error) :
  truthy (key (this w)) = false →
  keyFile (this w) = Some path → path ≠ "" →
  fst (run lib out isTokenExpiring w) = Ok true
  ∨ forceRefresh opts ≠ Some false →
  path_extname lib path ∈ [".json"; ".pem"; ".crt"; ".der"] →
  fs_readFile out path = Err e →
  let result := run lib out (getTokenAsyncInner opts) w in
  fst result = Err e ∧ this (snd result) = this w ∧
  signs (trace (snd result)) = signs (trace w) ∧
  requests (trace (snd result)) = requests (trace w) ∧
  (fs_readFile out = readFile_without_fs →
   message e = "use key rather than keyFile." ∧
   code e = Some MISSING_CREDENTIALS).
Proof.
  intros Hkey HkeyFile Hpath%truthy_string Hdue Hext Hread result.
  pose proof (run_getCredentials_unreadable lib out w path e Hext Hread)
    as Hcreds.
  subst result. rewrite run_getTokenAsyncInner. cbv zeta.
  rewrite (refresh_due lib out opts w Hdue), Hkey, HkeyFile.
  change (truthy (Some path)) with (truthy path). rewrite Hpath.
  change (the_string (Some path)) with path. cbn [negb andb].
  rewrite Hcreds. cbn [fst snd trace this tick log].
  rewrite signs_app, signs_singleton, requests_app, requests_singleton.
  cbn [is_sign is_request].
  split; [reflexivity|]. split; [reflexivity|].
  split; [lia|]. split; [lia|].
  intros Hshim. rewrite Hshim in Hread. injection Hread as <-.
  split; reflexivity.
Qed.

Transparent requestToken getCredentials.

Lemma unreadable_key_file_witness :
  let w := world_of (keyFile_agent "key.json" (Some "svc@x.iam")) 1000 in
  run sample_lib (browser granted)
    (getTokenAsyncInner {| forceRefresh := Some false |}) w
  = (Err (new_ErrorWithCode "use key rather than keyFile."
            MISSING_CREDENTIALS),
     tick 250 (log (EvReadFile "key.json") w)).
Proof.
  intros w.
  destruct (unreadable_key_file sample_lib (browser granted)
              {| forceRefresh := Some false |} w "key.json"
              (new_ErrorWithCode "use key rather than keyFile."
                 MISSING_CREDENTIALS))
    as (H1 & _);
    [reflexivity | reflexivity | discriminate | left; reflexivity
    | apply elem_of_cons; left; reflexivity | reflexivity |].
  reflexivity.
Defined.

(** ** Refreshing *)

(** X12: the options of [getToken].  Without [forceRefresh] the option is
    [false].  With [forceRefresh: undefined] spelled out it stays
    [undefined], which is neither [false] nor truthy: on an agent with a key
    such a call is the exchange also when the stored record is still good,
    as with [true]; yet while a promise is in [inFlightRequest] it returns
    that promise, as with [false]. *)
Theorem forceRefresh_undefined (lib : Lib) (out : Outside) :
  getToken_opts None = {| forceRefresh := Some false |} ∧
  getToken_opts (Some None) = {| forceRefresh := None |} ∧
  (∀ w, truthy (key (this w)) = true →
        run lib out (getTokenAsyncInner (getToken_opts (Some None))) w
        = run lib out requestToken w) ∧
  (∀ s p, inFlightRequest s = Some (promise p) →
          step lib (call (Some None)) s =
            {| world := world s; inFlightRequest := Some (promise p);
               promises := promises s;
               callers := callers s ++ [Joined p] |}).
Proof.
  split; [reflexivity|]. split; [reflexivity|]. split.
  - intros w Hkey. apply run_getTokenAsyncInner_key; [exact Hkey|].
    right. discriminate.
  - intros s p Hp. apply call_joins; [exact Hp|discriminate].
Qed.

Lemma forceRefresh_undefined_witness :
  let w := world_of (holding 3600000 sample_agent) 1000 in
  fst (run sample_lib (sample_outside "" renewed) isTokenExpiring w)
  = Ok false ∧
  fst (run sample_lib (sample_outside "" renewed)
         (getTokenAsyncInner (getToken_opts (Some None))) w) = Ok fresh_token.
Proof.
  intros w. split; [reflexivity|].
  rewrite (proj1 (proj2 (proj2 (forceRefresh_undefined sample_lib
                                  (sample_outside "" renewed)))) w eq_refl).
  reflexivity.
Defined.

(** X13: a failed exchange is tried again.  After an exchange whose request
    failed, on an agent with a key, every later call is the exchange anew,
    whatever its options and whenever it is made: the record is gone, so it
    does not matter that [expiresAt] still holds the expiry of the record
    held before. *)
Theorem failed_exchange_is_retried (lib : Lib) (out out' : Outside)
    (opts : GetTokenOptions) (w : World) (jwt : string) (e : Error) (dt : Z) :
  truthy (key (this w)) = true →
  jws_sign lib (assertion (clock w `div` 1000) (this w)) = Ok jwt →
  gaxios_request out (token_request jwt) = Err e →
  let w1 := tick dt (snd (run lib out requestToken w)) in
  expiresAt (this w1) = expiresAt (this w) ∧
  fst (run lib out' isTokenExpiring w1) = Ok true ∧
  run lib out' (getTokenAsyncInner opts) w1 = run lib out' requestToken w1.
Proof.
  intros Hkey Hsign Hreq w1. subst w1.
  rewrite (run_requestToken_refused lib out w jwt e Hsign Hreq).
  cbn [snd]. split; [reflexivity|].
  assert (∀ w', rawToken (this w') = None →
                fst (run lib out' isTokenExpiring w') = Ok true) as Hexp.
  { intros w' Hraw. rewrite run_isTokenExpiring, Hraw. reflexivity. }
  split; [apply Hexp; reflexivity|].
  apply run_getTokenAsyncInner_key; [exact Hkey|].
  left. apply Hexp. reflexivity.
Qed.

Lemma failed_exchange_is_retried_witness :
  let w := world_of (holding 3600000 sample_agent) 1000 in
  let w1 := tick 5 (snd (run sample_lib (sample_outside "" refused)
                           requestToken w)) in
  expiresAt (this w1) = Some 3600000 ∧
  fst (run sample_lib (sample_outside "" granted)
         (getTokenAsyncInner {| forceRefresh := Some false |}) w1)
  = Ok sample_token.
Proof.
  intros w w1.
  destruct (failed_exchange_is_retried sample_lib (sample_outside "" refused)
              (sample_outside "" granted) {| forceRefresh := Some false |}
              w "signed"
              {| message := "Request failed with status code 400";
                 code := None;
                 response :=
                   Some {| response_data :=
                             Some {| error := Some "invalid_grant";
                                     error_description :=
                                       Some "Invalid JWT" |} |} |}
              5 eq_refl eq_refl eq_refl) as (H1 & _ & H2).
  split; [exact H1|]. fold w1 in H2. rewrite H2. reflexivity.
Defined.

(** X14: an agent that has been revoked is ready for the next exchange.  On
    an agent with a key, every call after a successful revoke is the
    exchange, whatever its options; and unless the issuer was the empty
    string, the assertion that it signs is the one that the agent would have
    signed before the revoke. *)
Theorem revoked_agent_exchanges_again (lib : Lib) (out out' : Outside)
    (opts : GetTokenOptions) (w : World) (token : string)
    (r : GaxiosResponse.t) (dt : Z) :
  accessToken (this w) = Some token →
  truthy token = true →
  gaxios_request out (revoke_request token) = Ok r →
  truthy (key (this w)) = true →
  let w1 := tick dt (snd (run lib out revokeTokenAsync w)) in
  run lib out' (getTokenAsyncInner opts) w1 = run lib out' requestToken w1 ∧
  (iss (this w) ≠ Some "" →
   ∀ iat, assertion iat (this w1) = assertion iat (this w)).
Proof.
  intros Hacc Htoken Hreq Hkey w1. subst w1.
  rewrite (run_revokeTokenAsync_done lib out w token r Hacc Htoken Hreq).
  cbn [snd]. split.
  - apply run_getTokenAsyncInner_key; [exact Hkey|].
    left. rewrite run_isTokenExpiring. reflexivity.
  - intros Hiss iat. unfold assertion, fixed_fields.
    cbn [this tick configure_fields reset_options iss scope sub key
         additionalClaims TokenOptions.email TokenOptions.iss
         TokenOptions.scope TokenOptions.sub TokenOptions.key
         TokenOptions.additionalClaims].
    assert (js_or (iss (this w)) None = iss (this w)) as ->.
    { unfold js_or. destruct (iss (this w)) as [issuer|]; [|reflexivity].
      assert (truthy (Some issuer) = true) as ->; [|reflexivity].
      apply truthy_string. congruence. }
    destruct (scope (this w)); reflexivity.
Qed.

Lemma revoked_agent_exchanges_again_witness :
  let w := world_of (holding 3600000 sample_agent) 1000 in
  let w1 := tick 0 (snd (run sample_lib (sample_outside "" granted)
                           revokeTokenAsync w)) in
  run sample_lib (sample_outside "" renewed)
    (getTokenAsyncInner {| forceRefresh := Some false |}) w1
  = run sample_lib (sample_outside "" renewed) requestToken w1.
Proof.
  intros w w1.
  apply (revoked_agent_exchanges_again sample_lib (sample_outside "" granted)
           (sample_outside "" renewed) {| forceRefresh := Some false |} w
           "abc" {| GaxiosResponse.data := Some sample_token |} 0);
    reflexivity.
Defined.

(** X15: how long a record is served.  After an exchange at second
    [issuedAtSeconds] that obtained a record with [expires_in = n], a call
    without forced refresh returns that record, and changes nothing, for as
    long as the clock plus the threshold is before
    [(issuedAtSeconds + n) * 1000]; from then on, on an agent with a key,
    the call is a new exchange.  A record without [expires_in] is never
    served again: every call is a new exchange. *)
Theorem record_is_served_until_it_expires (lib : Lib) (out out' : Outside)
    (w : World) (jwt : string) (d : TokenData) (dt : Z) :
  jws_sign lib (assertion (clock w `div` 1000) (this w)) = Ok jwt →
  gaxios_request out (token_request jwt)
    = Ok {| GaxiosResponse.data := Some d |} →
  let issuedAtSeconds := clock w `div` 1000 in
  let threshold := js_nullish (eagerRefreshThresholdMillis (this w)) 0 in
  let w1 := tick dt (snd (run lib out requestToken w)) in
  let unforced := {| forceRefresh := Some false |} in
  clock w1 = clock w + elapsed out + dt ∧
  (∀ n, expires_in d = Val n →
        let E := (issuedAtSeconds + n) * 1000 in
        (E ≠ 0 → clock w1 + threshold < E →
         run lib out' (getTokenAsyncInner unforced) w1 = (Ok d, w1))
        ∧ (truthy (key (this w)) = true → E ≤ clock w1 + threshold →
           run lib out' (getTokenAsyncInner unforced) w1
           = run lib out' requestToken w1))
  ∧ (expires_in d = Undefined ∨ expires_in d = Null →
     truthy (key (this w)) = true →
     run lib out' (getTokenAsyncInner unforced) w1
     = run lib out' requestToken w1).
Proof.
  intros Hsign Hreq iat threshold w1 unforced. subst w1.
  rewrite (run_requestToken_granted lib out w jwt d Hsign Hreq).
  cbn [snd]. fold iat. split; [reflexivity|]. split.
  - intros n Hn. rewrite Hn. set (E := (iat + n) * 1000). split.
    + intros HE%truthy_number Hlt.
      apply run_getTokenAsyncInner_cached; [|reflexivity].
      rewrite run_isTokenExpiring.
      cbn [this tick rawToken expiresAt set_expiresAt set_rawToken clock
           eagerRefreshThresholdMillis fst].
      fold E threshold. rewrite HE. cbn [truthy option_truthy TokenData_truthy
        andb js_le]. f_equal. apply Z.leb_gt.
      cbn [clock tick] in Hlt. lia.
    + intros Hkey Hle. apply run_getTokenAsyncInner_key; [exact Hkey|].
      left. rewrite run_isTokenExpiring.
      cbn [this tick rawToken expiresAt set_expiresAt set_rawToken clock
           eagerRefreshThresholdMillis fst].
      fold E threshold. destruct (_ && _); [|reflexivity].
      cbn [js_le]. f_equal. apply Z.leb_le. cbn [clock tick] in Hle. lia.
  - intros Hnone Hkey. apply run_getTokenAsyncInner_key; [exact Hkey|].
    left. rewrite run_isTokenExpiring.
    cbn [this tick rawToken expiresAt set_expiresAt set_rawToken clock fst].
    destruct Hnone as [-> | ->]; reflexivity.
Qed.

Lemma record_is_served_until_it_expires_witness :
  let out := sample_outside "" granted in
  let w := world_of sample_agent 1700000000123 in
  let w' := snd (run sample_lib out requestToken w) in
  let unforced := {| forceRefresh := Some false |} in
  run sample_lib out (getTokenAsyncInner unforced) (tick 3598000 w')
  = (Ok sample_token, tick 3598000 w') ∧
  run sample_lib out (getTokenAsyncInner unforced) (tick 3599000 w')
  = run sample_lib out requestToken (tick 3599000 w').
Proof.
  intros out w w' unforced. split.
  - apply (proj1 (proj1 (proj2 (record_is_served_until_it_expires sample_lib
                                  out out w "signed" sample_token 3598000
                                  eq_refl eq_refl)) 3600 eq_refl));
      [discriminate | reflexivity].
  - apply (proj2 (proj1 (proj2 (record_is_served_until_it_expires sample_lib
                                  out out w "signed" sample_token 3599000
                                  eq_refl eq_refl)) 3600 eq_refl));
      [reflexivity | discriminate].
Defined.

(** ** More on credential files *)

(** X16: the converter of [.p12] and [.pfx] files is imported when it is
    first needed and kept.  When it has been imported, [getCredentials] only
    converts the file: the private key is what the converter gives, there is
    no client email, and an error of the converter is passed on.  When it
    has not, it is imported first and is there afterwards; and when the
    import fails, the call fails with that error without converting
    anything, and the converter is still missing. *)
Theorem p12_converter_is_imported_once (lib : Lib) (out : Outside)
    (w : World) (path : string) :
  path_extname lib path = ".p12" ∨ path_extname lib path = ".pfx" →
  let result := run lib out (getCredentials path) w in
  let converted :=
    match p12_getPem out path with
    | Ok pem => Ok {| privateKey := pem; clientEmail := None |}
    | Err e => Err e
    end in
  (getPem_loaded w = true →
   result = (converted, tick (elapsed out) (log (EvGetPem path) w)))
  ∧ (getPem_loaded w = false → import_google_p12_pem out = Ok tt →
     fst result = converted ∧ getPem_loaded (snd result) = true ∧
     trace (snd result) = trace w ++ [EvImport; EvGetPem path])
  ∧ (∀ e, getPem_loaded w = false → import_google_p12_pem out = Err e →
          fst result = Err e ∧ getPem_loaded (snd result) = false ∧
          trace (snd result) = trace w ++ [EvImport]).
Proof.
  intros Hext result converted. subst result converted.
  unfold getCredentials. simpl.
  assert (String.eqb (path_extname lib path) ".json" = false) as ->
    by (destruct Hext as [-> | ->]; reflexivity).
  assert (String.eqb (path_extname lib path) ".der"
          || String.eqb (path_extname lib path) ".crt"
          || String.eqb (path_extname lib path) ".pem" = false) as ->
    by (destruct Hext as [-> | ->]; reflexivity).
  assert (String.eqb (path_extname lib path) ".p12"
          || String.eqb (path_extname lib path) ".pfx" = true) as ->
    by (destruct Hext as [-> | ->]; reflexivity).
  simpl. split; [|split].
  - intros ->. simpl. destruct (p12_getPem out path); reflexivity.
  - intros -> Himport. simpl. rewrite Himport. simpl.
    destruct (p12_getPem out path); simpl; rewrite <- app_assoc;
      repeat split.
  - intros e Hloaded Himport. rewrite Hloaded. simpl.
    rewrite Himport. simpl. repeat split. exact Hloaded.
Qed.

Lemma p12_converter_is_imported_once_witness :
  let lib := lib_signing (Ok "signed") in
  let out := sample_outside "-----BEGIN" granted in
  let first := run lib out (getCredentials "key.p12") (world_of blank 0) in
  let second := run lib out (getCredentials "key.p12") (snd first) in
  getPem_loaded (snd first) = true ∧
  trace (snd first) = [EvImport; EvGetPem "key.p12"] ∧
  second = (Ok {| privateKey := "-----BEGIN"; clientEmail := None |},
            tick 250 (log (EvGetPem "key.p12") (snd first))).
Proof.
  intros lib out first second.
  pose proof (p12_converter_is_imported_once lib out (world_of blank 0)
                "key.p12" (or_introl eq_refl)) as (_ & Himport & _).
  destruct (Himport eq_refl eq_refl) as (_ & Hloaded & Htrace).
  pose proof (p12_converter_is_imported_once lib out (snd first)
                "key.p12" (or_introl eq_refl)) as (Hconvert & _).
  split; [exact Hloaded|]. split; [exact Htrace|].
  exact (Hconvert Hloaded).
Defined.

(** X17: what [getCredentials] makes of a [.json] key file that it has
    read.  An error of [JSON.parse] is passed on; [null] fails when its
    properties are read; an object gives its [private_key] and
    [client_email] when both are there and not empty, and fails with
    [private_key and client_email are required.] when either is missing or
    is the empty string.  The file has been read once in each case. *)
Theorem json_key_file_is_validated (lib : Lib) (out : Outside) (w : World)
    (path content : string) :
  path_extname lib path = ".json" →
  fs_readFile out path = Ok content →
  let result := run lib out (getCredentials path) w in
  snd result = tick (elapsed out) (log (EvReadFile path) w)
  ∧ (∀ e, JSON_parse lib content = Err e → fst result = Err e)
  ∧ (JSON_parse lib content = Ok JsonNull → fst result = Err TypeError)
  ∧ (∀ pk ce,
       JSON_parse lib content = Ok (JsonObject pk ce) →
       (truthy pk = true → truthy ce = true →
        fst result = Ok {| privateKey := the_string pk; clientEmail := ce |})
       ∧ (truthy pk = false ∨ truthy ce = false →
          fst result
          = Err (new_ErrorWithCode "private_key and client_email are required."
                   MISSING_CREDENTIALS))).
Proof.
  intros Hext Hread result. subst result.
  unfold getCredentials. simpl. rewrite Hext. simpl. rewrite Hread. simpl.
  destruct (JSON_parse lib content) as [[|pk ce]|e]; simpl.
  - repeat split; try discriminate.
  - split.
    { destruct (negb _ || negb _); reflexivity. }
    split; [discriminate|]. split; [discriminate|].
    intros pk' ce' H. injection H as <- <-. split.
    + intros Hpk Hce.
      fold (@truthy (option string) _ pk).
      fold (@truthy (option string) _ ce).
      rewrite Hpk, Hce. reflexivity.
    + intros Hmissing.
      fold (@truthy (option string) _ pk).
      fold (@truthy (option string) _ ce).
      destruct Hmissing as [-> | ->]; rewrite ?orb_true_r; reflexivity.
  - repeat split; try discriminate. intros e' H. injection H as <-.
    reflexivity.
Qed.

Lemma json_key_file_is_validated_witness :
  fst (run sample_lib (sample_outside "{...}" granted)
         (getCredentials "key.json") (world_of blank 0))
  = Ok {| privateKey := "-----BEGIN"; clientEmail := Some "svc@x.iam" |}
  ∧ fst (run sample_lib (sample_outside "{}" granted)
           (getCredentials "key.json") (world_of blank 0))
    = Err (new_ErrorWithCode "private_key and client_email are required."
             MISSING_CREDENTIALS).
Proof.
  split.
  - apply (proj1 (proj2 (proj2 (proj2 (json_key_file_is_validated sample_lib
             (sample_outside "{...}" granted) (world_of blank 0)
             "key.json" "{...}" eq_refl eq_refl)))
             (Some "-----BEGIN") (Some "svc@x.iam") eq_refl));
      reflexivity.
  - apply (proj2 (proj2 (proj2 (proj2 (json_key_file_is_validated sample_lib
             (sample_outside "{}" granted) (world_of blank 0)
             "key.json" "{}" eq_refl eq_refl)))
             None None eq_refl)).
    left. reflexivity.
Defined.

(** ** More on revocation *)

(** X18: with an access token, [revokeTokenAsync] sends one request, to the
    revoke endpoint followed by the token, signs nothing and loads nothing,
    whether the request succeeds or fails.  When it fails, the call fails
    with the error of the request as it is, and the agent is what it was:
    the record is still held. *)
Theorem revoke_sends_one_request (lib : Lib) (out : Outside) (w : World)
    (token : string) :
  accessToken (this w) = Some token →
  truthy token = true →
  let result := run lib out revokeTokenAsync w in
  trace (snd result) = trace w ++ [EvRequest (revoke_request token)] ∧
  GaxiosOptions.url (revoke_request token)
  = GOOGLE_REVOKE_TOKEN_URL +:+ token ∧
  (∀ e, gaxios_request out (revoke_request token) = Err e →
        result
        = (Err e,
           tick (elapsed out) (log (EvRequest (revoke_request token)) w))).
Proof.
  intros Hacc Htoken result. subst result.
  assert (truthy (accessToken (this w)) = true) as Htruthy
    by (rewrite Hacc; exact Htoken).
  unfold revokeTokenAsync. simpl. rewrite Htruthy. simpl.
  rewrite Hacc. simpl.
  destruct (gaxios_request out (revoke_request token)) as [r|e]; simpl.
  - repeat split. discriminate.
  - repeat split. intros e' H. injection H as <-. reflexivity.
Qed.

Lemma revoke_sends_one_request_witness :
  let w := world_of (holding 3600000 sample_agent) 1000 in
  let result := run sample_lib (sample_outside "" unreachable)
                  revokeTokenAsync w in
  (∃ e, fst result = Err e ∧ code e = Some "ENOTFOUND") ∧
  accessToken (this (snd result)) = Some "abc".
Proof.
  intros w result.
  destruct (revoke_sends_one_request sample_lib
              (sample_outside "" unreachable) w "abc" eq_refl eq_refl)
    as (_ & _ & Hfail).
  subst result. rewrite (Hfail _ eq_refl).
  split; [eexists; split; reflexivity|reflexivity].
Defined.

(** ** More on the event loop *)

Lemma advance_requestToken (lib : Lib) (w : World) (jwt : string) :
  jws_sign lib (assertion (clock w `div` 1000) (this w)) = Ok jwt →
  ∃ k, advance lib requestToken w =
         (Pending (request (token_request jwt)) k,
          log (EvRequest (token_request jwt))
            (log (EvSign (assertion (clock w `div` 1000) (this w))) w)).
Proof.
  intros Hsign. unfold requestToken. simpl. rewrite Hsign. simpl.
  eexists. reflexivity.
Qed.

(** X19: a call with [forceRefresh: true] never returns the promise in
    [inFlightRequest]: it starts [getTokenAsyncInner], stores the new
    promise in [inFlightRequest] in the place of the one that was there, and
    waits for it.  On an agent with a key whose assertion can be signed,
    that puts one more request on the wire, whatever record is held and
    whatever is in flight.  The promises and callers that were there are not
    touched: a caller that waits for an earlier promise still gets the
    result of that promise. *)
Theorem forced_refresh_starts_an_exchange (lib : Lib) (s : Loop) :
  let opts := {| forceRefresh := Some true |} in
  let s' := step lib (call (Some (Some true))) s in
  let p' := length (promises s) in
  world s' = snd (advance lib (getTokenAsyncInner opts) (world s)) ∧
  promises s'
  = promises s ++ [fst (advance lib (getTokenAsyncInner opts) (world s))] ∧
  inFlightRequest s' = Some (promise p') ∧
  callers s' = callers s ++ [Started p'] ∧
  (∀ jwt,
     truthy (key (this (world s))) = true →
     jws_sign lib (assertion (clock (world s) `div` 1000) (this (world s)))
     = Ok jwt →
     in_flight <$> promises s' !! p' = Some true ∧
     requests (trace (world s')) = S (requests (trace (world s)))) ∧
  (∀ c p r,
     callers s !! c = Some (Joined p) ∨ callers s !! c = Some (Started p) →
     promises s !! p = Some (Settled r) →
     callers (step lib (resume c) s') !! c = Some (Returned r)).
Proof.
  intros opts s' p'.
  assert (s' = {| world := snd (advance lib (getTokenAsyncInner opts)
                                  (world s));
                  inFlightRequest := Some (promise p');
                  promises :=
                    promises s
                      ++ [fst (advance lib (getTokenAsyncInner opts)
                                 (world s))];
                  callers := callers s ++ [Started p'] |}) as Hs'.
  { subst s'. unfold step, getToken, getTokenAsync.
    change (getToken_opts (Some (Some true))) with opts.
    change (negb (truthy (forceRefresh opts))) with false.
    rewrite andb_false_r.
    destruct (advance lib (getTokenAsyncInner opts) (world s)).
    reflexivity. }
  rewrite Hs'. cbn [world promises inFlightRequest callers].
  do 4 (split; [reflexivity|]). split.
  - intros jwt Hkey Hsign.
    destruct (advance_requestToken lib (world s) jwt Hsign) as [k Hadv].
    assert (advance lib (getTokenAsyncInner opts) (world s) =
              advance lib requestToken (world s)) as ->.
    { unfold getTokenAsyncInner.
      rewrite advance_bind, advance_isTokenExpiring. simpl.
      rewrite andb_false_r, Hkey. reflexivity. }
    rewrite Hadv. cbn [fst snd]. split.
    + subst p'. rewrite (list_lookup_middle _ [] _ _) by reflexivity.
      reflexivity.
    + cbn [log trace]. rewrite !requests_app, !requests_singleton.
      cbn [is_request]. lia.
  - intros c p r Hc Hp.
    match goal with |- callers (step lib (resume c) ?s1) !! c = _ =>
      destruct (resume_step lib c s1)
        as (_ & _ & _ & _ & _ & Hjoined & Hstarted & _)
    end.
    cbn [promises callers] in Hjoined, Hstarted.
    destruct Hc as [Hc|Hc].
    + apply (Hjoined p r).
      * apply lookup_app_l_Some. exact Hp.
      * apply lookup_app_l_Some. exact Hc.
    + apply (Hstarted p r).
      * apply lookup_app_l_Some. exact Hp.
      * apply lookup_app_l_Some. exact Hc.
Qed.

Lemma forced_refresh_starts_an_exchange_witness :
  let out := sample_outside "" granted in
  let s := step sample_lib (call None)
             (loop_of (world_of (holding 3600000 sample_agent) 4000000)) in
  let s' := step sample_lib (call (Some (Some true))) s in
  inFlightRequest s = Some (promise 0%nat) ∧
  inFlightRequest s' = Some (promise 1%nat) ∧
  requests (trace (world s')) = 2%nat.
Proof.
  intros out s s'.
  destruct (forced_refresh_starts_an_exchange sample_lib s)
    as (_ & _ & Hflight & _ & Hwire & _).
  split; [reflexivity|]. split; [exact Hflight|].
  exact (proj2 (Hwire "signed" eq_refl eq_refl)).
Defined.

(** A caller that is added or settled is not one whose [finally] is still
    to run. *)
Lemma lookup_snoc_Started (l : list Caller) (x : Caller) (c : nat) (p : pid) :
  (l ++ [x]) !! c = Some (Started p) →
  l !! c = Some (Started p) ∨ (c = length l ∧ x = Started p).
Proof.
  intros [H|[Hle H]]%lookup_app_Some; [left; exact H|right].
  apply list_lookup_singleton_Some in H as [H ->].
  split; [lia|reflexivity].
Qed.

Lemma lookup_settled_Started (l : list Caller) (c0 c : nat)
    (r : Result TokenData) (p : pid) :
  <[c0 := Returned r]> l !! c = Some (Started p) →
  c ≠ c0 ∧ l !! c = Some (Started p).
Proof.
  intros [(_ & H & _)|[Hne H]]%list_lookup_insert_Some; [discriminate|].
  split; [congruence|exact H].
Qed.

(** One step that is not a forced call keeps [one_exchange]. *)
Lemma step_one_exchange (lib : Lib) (a : Action) (s : Loop) :
  forced a = false → one_exchange s → one_exchange (step lib a s).
Proof.
  intros Hunforced (Hpending & Hstarted & Hunique).
  destruct a as [given|p out|c].
  - (* a call *)
    destruct (inFlightRequest s) as [[p]|] eqn:Hflight.
    + rewrite (call_joins lib s p given Hflight)
        by (intros ->; discriminate).
      split; [|split]; cbn [promises callers inFlightRequest].
      * intros q pr Hq Hpr. eauto.
      * intros c p0 [Hc|[_ Hc]]%lookup_snoc_Started; [|discriminate].
        eauto.
      * intros c c' p0 p0' [Hc|[_ Hc]]%lookup_snoc_Started
          [Hc'|[_ Hc']]%lookup_snoc_Started; try discriminate. eauto.
    + rewrite (call_starts lib s given Hflight).
      split; [|split]; cbn [promises callers inFlightRequest].
      * intros q pr [Hq|[Hle Hq]]%lookup_app_Some Hpr.
        -- specialize (Hpending q pr Hq Hpr). congruence.
        -- apply list_lookup_singleton_Some in Hq as [Hq _].
           do 2 f_equal. lia.
      * intros c p0 [Hc|[_ Hc]]%lookup_snoc_Started.
        -- specialize (Hstarted c p0 Hc). congruence.
        -- congruence.
      * intros c c' p0 p0' [Hc|[-> _]]%lookup_snoc_Started
          [Hc'|[-> _]]%lookup_snoc_Started.
        -- eauto.
        -- specialize (Hstarted c p0 Hc). congruence.
        -- specialize (Hstarted c' p0' Hc'). congruence.
        -- reflexivity.
  - (* the completion of an awaited operation *)
    unfold step.
    destruct (promises s !! p) as [[X o k|r]|] eqn:Hp;
      [|split; [|split]; assumption..].
    destruct (advance lib (k (answer out o)) (tick (elapsed out) (world s)))
      as [pr' w'].
    split; [|split]; cbn [promises callers inFlightRequest];
      [|assumption..].
    intros q pr [(<- & _ & _)|[Hne Hq]]%list_lookup_insert_Some Hpr.
    + apply (Hpending p (Pending o k) Hp). reflexivity.
    + eauto.
  - (* the turn of a caller *)
    unfold step.
    destruct (callers s !! c) as [[p|p|r0]|] eqn:Hc;
      [destruct (promises s !! p) as [[X o k|r]|] eqn:Hp ..| |];
      try (split; [|split]; assumption).
    + (* the caller that started the promise: its [finally] runs *)
      split; [|split];
        cbn [settle clear_inFlightRequest promises callers inFlightRequest].
      * intros q pr Hq Hpr. exfalso.
        pose proof (Hpending q pr Hq Hpr) as Hq'.
        pose proof (Hstarted c p Hc) as Hp'.
        rewrite Hq' in Hp'. injection Hp' as ->.
        rewrite Hp in Hq. injection Hq as <-. discriminate.
      * intros c' p' [Hne Hc']%lookup_settled_Started. exfalso.
        apply Hne. eauto.
      * intros c1 c2 p1 p2 [_ Hc1]%lookup_settled_Started
          [_ Hc2]%lookup_settled_Started. eauto.
    + (* a caller that was given the promise *)
      split; [|split]; cbn [settle promises callers inFlightRequest].
      * assumption.
      * intros c' p' [_ Hc']%lookup_settled_Started. eauto.
      * intros c1 c2 p1 p2 [_ Hc1]%lookup_settled_Started
          [_ Hc2]%lookup_settled_Started. eauto.
Qed.

(** X20: as long as no call forces a refresh, the agent has one exchange
    under way at most.  From a loop in which nothing has been called,
    whatever calls are made, whatever the outside answers and in whatever
    order operations complete and callers take their turns: two promises
    that have not settled are one and the same, that promise is the one in
    [inFlightRequest], one caller at most has a [finally] to run, and it
    waits for that promise. *)
Theorem one_exchange_at_a_time (lib : Lib) (acts : list Action) (w : World) :
  Forall (λ a, forced a = false) acts →
  let s := exec lib acts (loop_of w) in
  one_exchange s ∧
  (∀ q q' pr pr',
     promises s !! q = Some pr → is_pending pr = true →
     promises s !! q' = Some pr' → is_pending pr' = true →
     q = q') ∧
  (inFlightRequest s = None →
   ∀ q pr, promises s !! q = Some pr → is_pending pr = false).
Proof.
  intros Hacts s.
  assert (one_exchange s) as Hinv.
  { subst s.
    assert (one_exchange (loop_of w)) as H0.
    { split; [|split]; cbn; intros; discriminate. }
    revert H0. generalize (loop_of w).
    induction Hacts as [|a acts Ha _ IH]; intros s0 H0; [exact H0|].
    rewrite exec_cons. apply IH, step_one_exchange; assumption. }
  split; [exact Hinv|]. destruct Hinv as (Hpending & _). split.
  - intros q q' pr pr' Hq Hpr Hq' Hpr'.
    pose proof (Hpending q pr Hq Hpr) as H.
    rewrite (Hpending q' pr' Hq' Hpr') in H. congruence.
  - intros Hnone q pr Hq. destruct (is_pending pr) eqn:Hpr; [|reflexivity].
    rewrite (Hpending q pr Hq Hpr) in Hnone. discriminate.
Qed.

Lemma one_exchange_at_a_time_witness :
  let out := sample_outside "" granted in
  let s := exec sample_lib
             [call None; call (Some None); complete 0 out; resume 0;
              call (Some (Some false)); resume 1]%nat
             (loop_of (world_of sample_agent 1000)) in
  one_exchange s ∧ inFlightRequest s = Some (promise 1%nat).
Proof.
  intros out s. split; [|reflexivity].
  apply (one_exchange_at_a_time sample_lib
           [call None; call (Some None); complete 0 out; resume 0;
            call (Some (Some false)); resume 1]%nat
           (world_of sample_agent 1000)).
  repeat constructor.
Defined.

(** ** An exchange and a revoke *)

(** X21: a revoke undoes an exchange, up to two properties.  When an
    exchange obtains a record with an access token and a revoke follows and
    succeeds, the agent is the one before the exchange without its record,
    but for [expiresAt], which stays what the exchange made it, and
    [eagerRefreshThresholdMillis], which is undefined; the issuer is kept
    as long as it was not the empty string. *)
Theorem exchange_then_revoke (lib : Lib) (out out' : Outside) (w : World)
    (jwt token : string) (d : TokenData) (r : GaxiosResponse.t) :
  jws_sign lib (assertion (clock w `div` 1000) (this w)) = Ok jwt →
  gaxios_request out (token_request jwt)
    = Ok {| GaxiosResponse.data := Some d |} →
  access_token d = Some token → token ≠ "" →
  gaxios_request out' (revoke_request token) = Ok r →
  iss (this w) ≠ Some "" →
  let w1 := snd (run lib out requestToken w) in
  let result := run lib out' revokeTokenAsync w1 in
  fst result = Ok tt ∧
  this (snd result)
  = set_eagerRefreshThresholdMillis None
      (set_expiresAt (expiresAt (this w1)) (set_rawToken None (this w))).
Proof.
  intros Hsign Hreq Hacc Htoken%truthy_string Hrevoke Hiss w1 result.
  subst result w1.
  rewrite (run_requestToken_granted lib out w jwt d Hsign Hreq). cbn [snd].
  rewrite (run_revokeTokenAsync_done lib out' _ token r);
    [|exact Hacc|exact Htoken|exact Hrevoke].
  cbn [fst snd this]. split; [reflexivity|].
  unfold configure_fields, reset_options, set_eagerRefreshThresholdMillis,
    set_expiresAt, set_rawToken.
  cbn [expiresAt key keyFile iss sub scope rawToken tokenExpires email
       additionalClaims eagerRefreshThresholdMillis
       TokenOptions.keyFile TokenOptions.key TokenOptions.email
       TokenOptions.iss TokenOptions.sub TokenOptions.scope
       TokenOptions.additionalClaims TokenOptions.eagerRefreshThresholdMillis].
  assert (js_or (iss (this w)) None = iss (this w)) as ->.
  { unfold js_or. destruct (iss (this w)) as [issuer|]; [|reflexivity].
    assert (truthy (Some issuer) = true) as ->; [|reflexivity].
    apply truthy_string. congruence. }
  destruct (scope (this w)); reflexivity.
Qed.

Lemma exchange_then_revoke_witness :
  let out := sample_outside "" granted in
  let w := world_of sample_agent 1700000000123 in
  let w1 := snd (run sample_lib out requestToken w) in
  this (snd (run sample_lib out revokeTokenAsync w1))
  = set_eagerRefreshThresholdMillis None
      (set_expiresAt (Some 1700003600000) sample_agent).
Proof.
  intros out w w1.
  destruct (exchange_then_revoke sample_lib out out w "signed" "abc"
              sample_token {| GaxiosResponse.data := Some sample_token |})
    as [_ H]; [reflexivity | reflexivity | reflexivity | discriminate
              | reflexivity | discriminate |].
  exact H.
Defined.

(** ** A new agent *)

Lemma lookup_fixed_fields (iat : Z) (g : GoogleToken) :
  fixed_fields iat g !! "iss" = Some (str_or_undefined (iss g)) ∧
  fixed_fields iat g !! "scope" = Some (str_or_undefined (scope g)) ∧
  fixed_fields iat g !! "sub" = Some (str_or_undefined (sub g)) ∧
  fixed_fields iat g !! "iat" = Some (JNum iat) ∧
  fixed_fields iat g !! "exp" = Some (JNum (iat + 3600)).
Proof. unfold fixed_fields. repeat split; reflexivity. Qed.

(** X22: what an agent signs first.  An agent made by
    [new GoogleToken(options)] with a key holds no record, so its first
    call is the exchange, whatever the options of the call.  Without
    additional claims, the assertion it signs has the key as secret, [email]
    as issuer, or [iss] when [email] is missing or empty, a list of scopes
    joined by single spaces, and [sub], at the second of the call. *)
Theorem new_agent_first_call (lib : Lib) (out : Outside)
    (options : TokenOptions.t) (opts : GetTokenOptions) (now : Z)
    (k : string) :
  TokenOptions.key options = Some k → k ≠ "" →
  let w := world_of (new_GoogleToken (Some options)) now in
  let signed := assertion (now `div` 1000) (this w) in
  run lib out (getTokenAsyncInner opts) w = run lib out requestToken w ∧
  trace (snd (run lib out requestToken w)) =
    EvSign signed ::
      match jws_sign lib signed with
      | Ok jwt => [EvRequest (token_request jwt)]
      | Err _ => []
      end ∧
  secret signed = Some k ∧
  (TokenOptions.additionalClaims options = None →
   payload signed !! "iss"
   = Some (str_or_undefined
             (if truthy (TokenOptions.email options)
              then TokenOptions.email options
              else TokenOptions.iss options)) ∧
   payload signed !! "scope"
   = Some match TokenOptions.scope options with
          | Some (ScopeArray l) => JStr (String.concat " " l)
          | Some (ScopeString s) => JStr s
          | None => JUndefined
          end ∧
   payload signed !! "sub"
   = Some (str_or_undefined (TokenOptions.sub options)) ∧
   payload signed !! "iat" = Some (JNum (now `div` 1000)) ∧
   payload signed !! "exp" = Some (JNum (now `div` 1000 + 3600))).
Proof.
  intros Hkey Hk%truthy_string w signed. split; [|split; [|split]].
  - apply run_getTokenAsyncInner_key.
    + subst w. cbn. rewrite Hkey. exact Hk.
    + left. rewrite run_isTokenExpiring. reflexivity.
  - apply (run_requestToken_trace lib out w).
  - subst signed w. unfold assertion. cbn. exact Hkey.
  - intros Hclaims. subst signed w.
    set (g := new_GoogleToken (Some options)).
    assert (additionalClaims g = None) as Hnone by exact Hclaims.
    destruct (lookup_fixed_fields (now `div` 1000) g)
      as (Hiss & Hscope & Hsub & Hiat & Hexp).
    unfold assertion.
    cbn [payload this world_of]. rewrite Hnone. cbn [default from_option id].
    rewrite !lookup_Object_assign, !lookup_empty.
    rewrite Hiss, Hscope, Hsub, Hiat, Hexp.
    repeat split.
    subst g. cbn [new_GoogleToken default from_option id configure_fields
                  scope].
    destruct (TokenOptions.scope options) as [[s|l]|]; reflexivity.
Qed.

Lemma new_agent_first_call_witness :
  payload (assertion 1700000000 sample_agent) !! "iss"
  = Some (JStr "svc@x.iam") ∧
  payload (assertion 1700000000 sample_agent) !! "scope" = Some (JStr "a b").
Proof.
  destruct (new_agent_first_call sample_lib (sample_outside "" granted)
              {| TokenOptions.keyFile := None; TokenOptions.key := Some "KEY";
                 TokenOptions.email := Some "svc@x.iam";
                 TokenOptions.iss := None; TokenOptions.sub := None;
                 TokenOptions.scope := Some (ScopeArray ["a"; "b"]);
                 TokenOptions.additionalClaims := None;
                 TokenOptions.eagerRefreshThresholdMillis := Some 1000 |}
              {| forceRefresh := Some false |} 1700000000999 "KEY"
              eq_refl ltac:(discriminate))
    as (_ & _ & _ & H).
  destruct (H eq_refl) as (Hiss & Hscope & _).
  split; [exact Hiss|exact Hscope].
Defined.
